(** * make_astral_map: taxon-label extraction for ASTRAL map files

    A shallow embedding of [make_astral_map.py] and the properties of its
    label extractors, taxon aggregator, group resolver and exit statuses.

    Text model.  A Python [str] is a [list ascii]; a character is one code
    point in the range 0..255 (what the script's Latin-1 decoding produces,
    and all of ASCII).  On that range [str.isspace], [str.lower] and the
    regular-expression class [\S] are the finite tables written out below.
    A file decoded as UTF-8 can hold characters above that range; one of
    them, U+0130, lowers to two characters, so that [str.lower] moves
    the places after it.  A statement that needs the lowered text to
    keep the places of the text says so, with [lower_aligned].
    A [Set[str]] is a [gset text], a [Dict[str, str]] a [gmap text text].

    Effects.  A file is a record of its path, its suffix and its decoded
    characters, or no characters when it cannot be read; a function that
    can raise returns a [result]; the diagnostic stream is a list of
    [Diag] lines; a run of the program is its exit status, its
    diagnostics and the files it left on disk; an exception that
    nothing catches ends the run with status 1.  The regular expressions are
    scanned left to right with a counter of the characters of the current
    match still to pass, as [finditer] and [sub] do.  [csv.reader] is a
    parameter of the program. *)

From Stdlib Require Import Ascii String NArith List Bool Arith Lia.
From stdpp Require Import base gmap sets list strings sorting.
Import ListNotations.

Local Open Scope char_scope.
Local Open Scope list_scope.
Local Open Scope nat_scope.

Abbreviation text := (list ascii).

(** String literals of the source, as texts. *)
Definition str (s : string) : text := list_ascii_of_string s.

(* ------------------------------------------------------------------ *)
(** ** Characters *)

Module Char.

(** Code point of a character. *)
Definition ord (c : ascii) : N := N_of_ascii c.

(** [str.isspace] for one character, which is also the complement of
    the regular-expression class [\S]: TAB LF VT FF CR, FS GS RS US,
    SPACE, NEL and NBSP. *)
Definition isspace (c : ascii) : bool :=
  existsb (N.eqb (ord c)) [9; 10; 11; 12; 13; 28; 29; 30; 31; 32; 133; 160]%N.

(** [str.lower] for one character: A-Z and the accented capitals
    (all of 0xC0..0xDE but the multiplication sign 0xD7). *)
Definition lower (c : ascii) : ascii :=
  let n := ord c in
  if ((65 <=? n) && (n <=? 90))%N
     || ((192 <=? n) && (n <=? 222) && negb (n =? 215))%N
  then ascii_of_N (n + 32) else c.

(** [str.upper] for one character.  The result is a list of code
    points: sharp s becomes two letters, micro and y-diaeresis leave
    the 8-bit range. *)
Definition upper (c : ascii) : list N :=
  let n := ord c in
  if ((97 <=? n) && (n <=? 122))%N
     || ((224 <=? n) && (n <=? 254) && negb (n =? 247))%N
  then [(n - 32)%N]
  else if (n =? 223)%N then [83; 83]%N
  else if (n =? 181)%N then [924]%N
  else if (n =? 255)%N then [376]%N
  else [n].

(** Line boundaries of [str.splitlines] other than CR (which may pair
    with a following LF): LF VT FF FS GS RS NEL. *)
Definition islinebreak (c : ascii) : bool :=
  existsb (N.eqb (ord c)) [10; 11; 12; 28; 29; 30; 133]%N.

Definition eqb (a b : ascii) : bool := Ascii.eqb a b.

End Char.

Arguments Char.eqb : simpl never.
Arguments Char.isspace : simpl never.
Arguments Char.islinebreak : simpl never.
Arguments Char.lower : simpl never.
Arguments Char.upper : simpl never.

Definition CR : ascii := ascii_of_N 13.
Definition LF : ascii := ascii_of_N 10.
Definition TAB : ascii := ascii_of_N 9.
Definition SQUOTE : ascii := ascii_of_N 39.
Definition DQUOTE : ascii := ascii_of_N 34.

(* ------------------------------------------------------------------ *)
(** ** String methods used by the script *)

Module Str.

(** [c in s] for a single character [c]. *)
Definition contains (c : ascii) (s : text) : bool := existsb (Char.eqb c) s.

(** [s.find(c)] for a single character: index of the first occurrence. *)
Fixpoint index (c : ascii) (s : text) : option nat :=
  match s with
  | [] => None
  | x :: r => if Char.eqb c x then Some 0 else option_map S (index c r)
  end.

(** [s.startswith(p)]. *)
Fixpoint startswith (p s : text) : bool :=
  match p, s with
  | [], _ => true
  | _ :: _, [] => false
  | a :: p', b :: s' => Char.eqb a b && startswith p' s'
  end.

(** [s.find(p)]: lowest index at which [p] occurs; [None] is Python's -1. *)
Fixpoint find (p s : text) : option nat :=
  if startswith p s then Some 0
  else match s with
       | [] => None
       | _ :: r => option_map S (find p r)
       end.

(** [s.count(c)] for a single character. *)
Definition count (c : ascii) (s : text) : nat :=
  length (filter (fun x => Char.eqb c x = true) s).

Definition lower (s : text) : text := map Char.lower s.

Definition upper (s : text) : list N := flat_map Char.upper s.

Fixpoint lstrip (s : text) : text :=
  match s with
  | [] => []
  | c :: r => if Char.isspace c then lstrip r else s
  end.

Definition rstrip (s : text) : text := rev (lstrip (rev s)).

(** [s.strip()]. *)
Definition strip (s : text) : text := rstrip (lstrip s).

(** [s.rstrip(";")]. *)
Fixpoint lstrip_char (c : ascii) (s : text) : text :=
  match s with
  | [] => []
  | x :: r => if Char.eqb c x then lstrip_char c r else s
  end.

Definition rstrip_char (c : ascii) (s : text) : text :=
  rev (lstrip_char c (rev s)).

(** Maximal leading run of non-whitespace characters, and what follows. *)
Fixpoint nonspace_run (s : text) : text :=
  match s with
  | [] => []
  | c :: r => if Char.isspace c then [] else c :: nonspace_run r
  end.

(** [s.split()]: the maximal runs of non-whitespace characters.
    [skip] counts the characters of the run already emitted. *)
Fixpoint split_go (skip : nat) (s : text) : list text :=
  match s with
  | [] => []
  | c :: r =>
      match skip with
      | S k => split_go k r
      | O => if Char.isspace c then split_go 0 r
             else (c :: nonspace_run r) :: split_go (length (nonspace_run r)) r
      end
  end.

Definition split (s : text) : list text := split_go 0 s.

(** [s.splitlines()]: [cur] is the current line, reversed.  CR LF is one
    boundary; a final boundary opens no empty last line. *)
Fixpoint splitlines_go (cur : text) (s : text) : list text :=
  match s with
  | [] => match cur with [] => [] | _ => [rev cur] end
  | c :: r =>
      if Char.eqb c CR then
        rev cur :: match r with
                   | d :: r' => if Char.eqb d LF then splitlines_go [] r'
                                else splitlines_go [] r
                   | [] => splitlines_go [] r
                   end
      else if Char.islinebreak c then rev cur :: splitlines_go [] r
      else splitlines_go (c :: cur) r
  end.

Definition splitlines (s : text) : list text := splitlines_go [] s.

End Str.

(* ------------------------------------------------------------------ *)
(** ** Comment Stripper *)

(** [re.sub(COMMENT_RE, empty, text)]: [COMMENT_RE] is an opening bracket,
    a shortest run of any characters (DOTALL) and a closing bracket.
    The scan goes left to right; [skip] counts the characters that are
    still inside the match being removed.  At an opening bracket the
    shortest match ends at the first closing bracket after it; when there
    is none the pattern does not match there and the bracket is kept. *)
Fixpoint sub_comment_re (skip : nat) (s : text) : text :=
  match s with
  | [] => []
  | c :: r =>
      match skip with
      | S k => sub_comment_re k r
      | O =>
          if Char.eqb c "["
          then match Str.index "]" r with
               | Some n => sub_comment_re (S n) r
               | None => c :: sub_comment_re 0 r
               end
          else c :: sub_comment_re 0 r
      end
  end.

Definition strip_nexus_comments (t : text) : text := sub_comment_re 0 t.

(* ------------------------------------------------------------------ *)
(** ** Tokenizer *)

(** One quoted alternative of [TOKEN_RE] (quote, any characters but the
    quote, quote) tried at a position holding [c] followed by [r]: it
    matches when [c] is the quote [q] and a closing [q] follows; the group
    is what lies between. *)
Definition quoted_group (q c : ascii) (r : text) : option text :=
  if Char.eqb c q then option_map (fun n => firstn n r) (Str.index q r) else None.

(** [TOKEN_RE.finditer(s)], each match reduced to its one participating
    group.  [skip] counts the characters of the last match not yet passed.
    The alternatives are tried in the order of the pattern: single-quoted
    span, double-quoted span, run of non-whitespace. *)
Fixpoint finditer_tokens (skip : nat) (s : text) : list text :=
  match s with
  | [] => []
  | c :: r =>
      match skip with
      | S k => finditer_tokens k r
      | O =>
          match quoted_group SQUOTE c r with
          | Some g => g :: finditer_tokens (S (length g)) r
          | None =>
              match quoted_group DQUOTE c r with
              | Some g => g :: finditer_tokens (S (length g)) r
              | None =>
                  if Char.isspace c then finditer_tokens 0 r
                  else (c :: Str.nonspace_run r)
                         :: finditer_tokens (length (Str.nonspace_run r)) r
              end
          end
      end
  end.

Definition tokenize (line : text) : list text :=
  finditer_tokens 0 (Str.strip line).

(* ------------------------------------------------------------------ *)
(** ** NEXUS Label Extractor *)

(** The substitution that removes a leading, case-insensitive
    [taxlabels] from [sub] (pattern [(?i)^taxlabels], count 1). *)
Definition sub_taxlabels_prefix (sub : text) : text :=
  if Str.startswith (str "taxlabels") (Str.lower sub) then skipn 9 sub else sub.

Definition parse_taxlabels_block (t : text) : list text :=
  let lowered := Str.lower t in
  match Str.find (str "taxlabels") lowered with
  | None => []
  | Some idx =>
      let sub := skipn idx t in
      match Str.index ";" sub with
      | None => []
      | Some semi =>
          let sub := firstn semi sub in
          let sub := Str.strip (sub_taxlabels_prefix sub) in
          tokenize sub
      end
  end.

Definition matrix_skip_words : list text :=
  [str "matrix"; str "format"; str "dimensions"; str "end"; str "begin"].

(** [line.lower().startswith((...))] with the tuple of skipped words. *)
Definition skipped_line (line : text) : bool :=
  existsb (fun w => Str.startswith w (Str.lower line)) matrix_skip_words.

Arguments skipped_line : simpl never.

(** The loop body of [parse_matrix_block] over the lines of the block. *)
Fixpoint matrix_rows (lines : list text) : list text :=
  match lines with
  | [] => []
  | raw :: rest =>
      let line := Str.strip raw in
      match line with
      | [] => matrix_rows rest
      | _ =>
          if skipped_line line
          then matrix_rows rest
          else match tokenize line with
               | [] => matrix_rows rest
               | tok0 :: _ => tok0 :: matrix_rows rest
               end
      end
  end.

Definition parse_matrix_block (t : text) : list text :=
  let lowered := Str.lower t in
  match Str.find (str "matrix") lowered with
  | None => []
  | Some midx =>
      let sub := skipn (midx + length (str "matrix")) t in
      let sub := match Str.index ";" sub with
                 | Some semi => firstn semi sub
                 | None => sub
                 end in
      matrix_rows (Str.splitlines sub)
  end.

(** The final clean-up of [parse_nexus_taxa]:
    [set(l.strip().rstrip(";") for l in taxa if l.strip())]. *)
Definition clean_label (l : text) : text := Str.rstrip_char ";" (Str.strip l).

Definition cleaned (taxa : gset text) : gset text :=
  set_map clean_label (filter (fun l => Str.strip l <> []) taxa).

(** [parse_nexus_taxa] on the text read from the file, with the MATRIX
    step as a parameter [matrix_step] so that a statement can say whether
    the result depends on it. *)
Definition parse_nexus_with (matrix_step : text -> list text) (raw : text) : gset text :=
  let no_comments := strip_nexus_comments raw in
  let taxa : gset text := ∅ in
  let labels := parse_taxlabels_block no_comments in
  let taxa := match labels with
              | [] => taxa
              | _ => taxa ∪ list_to_set labels
              end in
  let taxa := if decide (taxa = ∅)
              then taxa ∪ list_to_set (matrix_step no_comments)
              else taxa in
  cleaned taxa.

Definition parse_nexus_text (raw : text) : gset text :=
  parse_nexus_with parse_matrix_block raw.

(* ------------------------------------------------------------------ *)
(** ** Exceptions and files *)

(** The exceptions the script can meet: a file that cannot be opened or
    read, the [ValueError] of the strict aggregator, an index out of
    range, a pattern that is not relative. *)
Inductive exn : Type :=
| OSError (path : text)
| ValueError (path : text)
| IndexError
| NotImplementedError.

Inductive result (A : Type) : Type :=
| Ok (a : A)
| Raise (e : exn).
Arguments Ok {A} a.
Arguments Raise {A} e.

(** A file as the script sees it: its path, [Path.suffix], and its decoded
    characters, or [None] when opening or reading it fails. *)
Record File : Type := mkFile {
  path : text;
  suffix : text;
  content : option text
}.

(** Text-mode reading translates CR LF and a lone CR to LF. *)
Fixpoint universal_newlines (s : text) : text :=
  match s with
  | [] => []
  | c :: r =>
      if Char.eqb c CR then
        LF :: match r with
              | d :: r' => if Char.eqb d LF then universal_newlines r'
                           else universal_newlines r
              | [] => []
              end
      else c :: universal_newlines r
  end.

(** [path.read_text(...)]. *)
Definition read_text (f : File) : result text :=
  match content f with
  | None => Raise (OSError (path f))
  | Some s => Ok (universal_newlines s)
  end.

(** The lines a text-mode file object yields, line ends kept. *)
Fixpoint readlines_go (cur : text) (s : text) : list text :=
  match s with
  | [] => match cur with [] => [] | _ => [rev cur] end
  | c :: r =>
      if Char.eqb c LF then rev (c :: cur) :: readlines_go [] r
      else readlines_go (c :: cur) r
  end.

Definition readlines (s : text) : list text := readlines_go [] s.

Definition parse_nexus_taxa (f : File) : result (gset text) :=
  match read_text f with
  | Ok raw => Ok (parse_nexus_text raw)
  | Raise _ =>
      (* second attempt, decoding as Latin-1 *)
      match read_text f with
      | Ok raw => Ok (parse_nexus_text raw)
      | Raise e => Raise e
      end
  end.

(* ------------------------------------------------------------------ *)
(** ** FASTA Label Extractor *)

(** The loop of [parse_fasta_taxa] over the lines of the file. *)
Fixpoint fasta_loop (lines : list text) (taxa : gset text) : result (gset text) :=
  match lines with
  | [] => Ok taxa
  | line :: rest =>
      if Str.startswith (str ">") line then
        match Str.strip (skipn 1 line) with
        | [] => fasta_loop rest taxa
        | label =>
            match Str.split label with
            | [] => Raise IndexError
            | label0 :: _ => fasta_loop rest (taxa ∪ {[ label0 ]})
            end
        end
      else fasta_loop rest taxa
  end.

Definition parse_fasta_text (t : text) : result (gset text) :=
  fasta_loop (readlines (universal_newlines t)) ∅.

Definition parse_fasta_taxa (f : File) : result (gset text) :=
  match content f with
  | None => Raise (OSError (path f))
  | Some s => parse_fasta_text s
  end.

(* ------------------------------------------------------------------ *)
(** ** Format Detector *)

Inductive Format : Type := Fasta | Nexus | Unknown.

Definition NEXUS_MARK : list N := map Char.ord (str "#NEXUS").

Fixpoint startswithN (p s : list N) : bool :=
  match p, s with
  | [], _ => true
  | _ :: _, [] => false
  | a :: p', b :: s' => N.eqb a b && startswithN p' s'
  end.

Fixpoint detect_lines (lines : list text) : option Format :=
  match lines with
  | [] => None
  | line :: rest =>
      match Str.strip line with
      | [] => detect_lines rest
      | s =>
          if Str.startswith (str ">") s then Some Fasta
          else if startswithN NEXUS_MARK (Str.upper s) then Some Nexus
          else detect_lines rest
      end
  end.

Definition text_eqb (a b : text) : bool := bool_decide (a = b).

Definition format_of_suffix (ext : text) : Format :=
  if existsb (text_eqb ext) [str ".fasta"; str ".fa"; str ".fas"] then Fasta
  else if existsb (text_eqb ext) [str ".nex"; str ".nexus"] then Nexus
  else Unknown.

Definition detect_format_from_content (f : File) : Format :=
  let seen :=
    match content f with
    | Some s => detect_lines (firstn 50 (readlines (universal_newlines s)))
    | None => None (* the exception is swallowed *)
    end in
  match seen with
  | Some fmt => fmt
  | None => format_of_suffix (Str.lower (suffix f))
  end.

(* ------------------------------------------------------------------ *)
(** ** Taxon Aggregator *)

(** Lines written to the diagnostic stream. *)
Inductive Diag : Type :=
| Ignored (p : text)
| Scanned (p : text) (n : nat)
| Warned (p : text) (e : exn)
| NoFilesFound
| NoTaxaFound
| Sweeping (n : nat)
| Detected (n : nat)
| GroupsLoaded (n : nat)
| MapSaved (p : text)
| TaxaSaved (p : text).

(** The body of the [try] for one file: [Ok None] is the [continue] of an
    unknown format, [Ok (Some ts)] reaches [taxa.update(ts)]. *)
Definition scan_file (p : File) (strict verbose : bool)
  : list Diag * result (option (gset text)) :=
  let extracted (r : result (gset text)) :=
    match r with
    | Ok ts => (if verbose then [Scanned (path p) (size ts)] else [], Ok (Some ts))
    | Raise e => ([], Raise e)
    end in
  match detect_format_from_content p with
  | Fasta => extracted (parse_fasta_taxa p)
  | Nexus => extracted (parse_nexus_taxa p)
  | Unknown =>
      (if verbose then [Ignored (path p)] else [],
       if strict then Raise (ValueError (path p)) else Ok None)
  end.

Fixpoint gather_loop (paths : list File) (strict verbose : bool) (taxa : gset text)
  : list Diag * result (gset text) :=
  match paths with
  | [] => ([], Ok taxa)
  | p :: rest =>
      match scan_file p strict verbose with
      | (log, Ok (Some ts)) =>
          let (log', r) := gather_loop rest strict verbose (taxa ∪ ts) in
          (log ++ log', r)
      | (log, Ok None) =>
          let (log', r) := gather_loop rest strict verbose taxa in
          (log ++ log', r)
      | (log, Raise e) =>
          if strict then (log, Raise e)
          else
            let (log', r) := gather_loop rest strict verbose taxa in
            (log ++ Warned (path p) e :: log', r)
      end
  end.

Definition gather_taxa (paths : list File) (strict verbose : bool)
  : list Diag * result (gset text) :=
  gather_loop paths strict verbose ∅.

(* ------------------------------------------------------------------ *)
(** ** Group Resolver *)

(** [pick_group], the closure of [main], with the two variables it
    captures made arguments. *)
Definition pick_group (mapping : gmap text text) (default_group_mode : text)
    (t : text) : text :=
  match mapping !! t with
  | Some g => g
  | None =>
      if text_eqb default_group_mode (str "species") then t
      else if text_eqb default_group_mode (str "NA") then str "NA"
      else if text_eqb default_group_mode (str "none") then []
      else t
  end.

(** [l.index(x)]. *)
Fixpoint list_index (x : text) (l : list text) : option nat :=
  match l with
  | [] => None
  | y :: r => if text_eqb y x then Some 0 else option_map S (list_index x r)
  end.

(** The row loop of [load_groups_csv]. *)
Fixpoint groups_loop (tax_idx grp_idx : nat) (rows : list (list text))
    (mapping : gmap text text) : gmap text text :=
  match rows with
  | [] => mapping
  | r :: rest =>
      if length r <=? Nat.max tax_idx grp_idx
      then groups_loop tax_idx grp_idx rest mapping
      else
        let taxon := Str.strip (nth tax_idx r []) in
        let group := Str.strip (nth grp_idx r []) in
        match taxon with
        | [] => groups_loop tax_idx grp_idx rest mapping
        | _ => groups_loop tax_idx grp_idx rest (<[taxon := group]> mapping)
        end
  end.

(** Header detection of [load_groups_csv]: the columns of taxon and
    group, and the index of the first data row. *)
Definition table_layout (row0 : list text) : nat * nat * nat :=
  let header := map (fun c => Str.lower (Str.strip c)) row0 in
  match list_index (str "taxon") header, list_index (str "group") header with
  | Some tax_idx, Some grp_idx => (tax_idx, grp_idx, 1)
  | _, _ => (0, 1, 0)
  end.

(** Everything of [load_groups_csv] after [csv.reader] has produced the
    rows. *)
Definition load_groups_rows (rows : list (list text)) : gmap text text :=
  match rows with
  | [] => ∅
  | row0 :: _ =>
      let '(tax_idx, grp_idx, start_idx) := table_layout row0 in
      groups_loop tax_idx grp_idx (skipn start_idx rows) ∅
  end.

(** Lexicographic order of strings by code point, the order of [sorted]. *)
Fixpoint text_leb (a b : text) : bool :=
  match a, b with
  | [], _ => true
  | _ :: _, [] => false
  | x :: a', y :: b' =>
      if (Char.ord x <? Char.ord y)%N then true
      else if (Char.ord x =? Char.ord y)%N then text_leb a' b'
      else false
  end.

Definition text_le (a b : text) : Prop := text_leb a b = true.

#[global] Instance text_le_dec : RelDecision text_le.
Proof. intros a b. unfold text_le. apply _. Defined.

Definition sorted_taxa (taxa : gset text) : list text :=
  merge_sort text_le (elements taxa).

(** [s.split(",")]: fields between separators, at least one. *)
Fixpoint split_on_go (sep : ascii) (cur : text) (s : text) : list text :=
  match s with
  | [] => [rev cur]
  | c :: r =>
      if Char.eqb c sep then rev cur :: split_on_go sep [] r
      else split_on_go sep (c :: cur) r
  end.

Definition split_on (sep : ascii) (s : text) : list text := split_on_go sep [] s.

(** The delimiter of the table: a tab only when the tabs outnumber the
    commas. *)
Definition detect_delimiter (sample : text) : ascii :=
  if Str.count "," sample <? Str.count TAB sample then TAB else ",".

(* ------------------------------------------------------------------ *)
(** ** The program *)

Section Program.

(** [csv.reader(lines, delimiter=delim)] of the Python library, listed. *)
Variable csv_reader : list text -> ascii -> list (list text).

Definition load_groups_csv (csv_path : File) : result (gmap text text) :=
  match read_text csv_path with
  | Raise e => Raise e
  | Ok sample =>
      let delim := detect_delimiter sample in
      let rows := csv_reader (Str.splitlines sample) delim in
      Ok (load_groups_rows rows)
  end.

(** Parsed command line. *)
Record Args : Type := mkArgs {
  pattern : text;
  groups : option File;
  default_group : text;
  out_map : text;
  out_taxa : option text;
  strict : bool;
  verbose : bool
}.

(** What a write leaves: the file written whole, or an exception, raised
    while the path is resolved, its parent directory made, the file
    opened or its lines written, and what is left of the file if it was
    opened at all. *)
Inductive WriteOutcome : Type :=
| Written
| WriteFailed (remains : option (list text)).

(** What the program meets on disk: whether the resolved [--input] is a
    directory, or the exception of resolving and testing it; the files
    [root.rglob(pat)] lists for a pattern, or the exception it raises on
    a pattern it does not accept; and how the write of a file ends. *)
Record Disk : Type := mkDisk {
  input_dir : result bool;
  rglob : text -> result (list File);
  write : text -> list text -> WriteOutcome
}.

(** [root.is_dir()], when it can be asked. *)
Definition is_dir (disk : Disk) : bool :=
  match input_dir disk with
  | Ok b => b
  | Raise _ => false
  end.

(** How a run ends: the exit status of the process, the diagnostics and
    the files it wrote, in order, each with its path and the lines the
    write left in it. *)
Record Run : Type := mkRun {
  status : N;
  stderr : list Diag;
  written : list (text * list text)
}.

Definition when (b : bool) (d : Diag) : list Diag := if b then [d] else [].

Definition map_line (mapping : gmap text text) (mode : text) (t : text) : text :=
  t ++ [TAB] ++ pick_group mapping mode t ++ [LF].

(** The loop [files.extend(root.rglob(pat))] over the patterns: the
    first pattern that raises ends it. *)
Fixpoint rglob_all (disk : Disk) (patterns : list text) : result (list File) :=
  match patterns with
  | [] => Ok []
  | pat :: rest =>
      match rglob disk pat with
      | Raise e => Raise e
      | Ok fs =>
          match rglob_all disk rest with
          | Raise e => Raise e
          | Ok more => Ok (fs ++ more)
          end
      end
  end.

(** The files of all patterns, in the order of the patterns. *)
Definition found_files (args : Args) (disk : Disk) : result (list File) :=
  let patterns :=
    filter (fun p => p <> [])
           (map Str.strip (split_on "," (pattern args))) in
  rglob_all disk patterns.

(** What a failed write leaves on disk. *)
Definition kept (p : text) (remains : option (list text)) : list (text * list text) :=
  match remains with
  | Some ls => [(p, ls)]
  | None => []
  end.

(** An exception that nothing catches ends the process with status 1. *)
Definition main (args : Args) (disk : Disk) : Run :=
  match input_dir disk with
  | Raise e => mkRun 1 [] []
  | Ok false =>
      (* ap.error: usage message, exit status 2 *)
      mkRun 2 [] []
  | Ok true =>
      match found_files args disk with
      | Raise e => mkRun 1 [] []
      | Ok [] => mkRun 2 [NoFilesFound] []
      | Ok files =>
          let log0 := when (verbose args) (Sweeping (length files)) in
          match gather_taxa files (strict args) (verbose args) with
          | (log1, Raise e) => mkRun 1 (log0 ++ log1) []
          | (log1, Ok taxa) =>
              if decide (taxa = ∅) then
                mkRun 3 (log0 ++ log1 ++ [NoTaxaFound]) []
              else
                let log2 := when (verbose args) (Detected (size taxa)) in
                let loaded :=
                  match groups args with
                  | Some g =>
                      match load_groups_csv g with
                      | Ok m => Ok (m, when (verbose args) (GroupsLoaded (size m)))
                      | Raise e => Raise e
                      end
                  | None => Ok (∅, [])
                  end in
                match loaded with
                | Raise e => mkRun 1 (log0 ++ log1 ++ log2) []
                | Ok (mapping, log3) =>
                    let rows := sorted_taxa taxa in
                    let map_lines :=
                      map (map_line mapping (default_group args)) rows in
                    let taxa_lines := map (fun t => t ++ [LF]) rows in
                    let log := log0 ++ log1 ++ log2 ++ log3 in
                    match write disk (out_map args) map_lines with
                    | WriteFailed remains =>
                        mkRun 1 log (kept (out_map args) remains)
                    | Written =>
                        let w_map := (out_map args, map_lines) in
                        let saved := when (verbose args) (MapSaved (out_map args)) in
                        match out_taxa args with
                        | None => mkRun 0 (log ++ saved) [w_map]
                        | Some p =>
                            match write disk p taxa_lines with
                            | WriteFailed remains =>
                                mkRun 1 log (w_map :: kept p remains)
                            | Written =>
                                mkRun 0
                                  (log ++ saved
                                     ++ when (verbose args) (TaxaSaved p))
                                  [w_map; (p, taxa_lines)]
                            end
                        end
                    end
                end
          end
      end
  end.

End Program.

(* ================================================================== *)
(** * Notions used in the statements *)

(** ** Shapes of texts *)

(** Whitespace only. *)
Definition blank (s : text) : Prop := Forall (fun c => Char.isspace c = true) s.

(** No whitespace at all. *)
Definition solid (s : text) : Prop := Forall (fun c => Char.isspace c = false) s.

(** [rstrip] by recursion from the left: a character is dropped when it
    is whitespace and nothing is kept after it. *)
Fixpoint rstrip_rec (s : text) : text :=
  match s with
  | [] => []
  | c :: r =>
      match rstrip_rec r with
      | [] => if Char.isspace c then [] else [c]
      | r' => c :: r'
      end
  end.

(** One of the two quote characters of the token pattern. *)
Definition is_quote (q : ascii) : Prop := q = SQUOTE \/ q = DQUOTE.

(** A text that is empty or starts with whitespace ends a bare run. *)
Definition run_end (rest : text) : Prop :=
  match rest with
  | [] => True
  | c :: _ => Char.isspace c = true
  end.

(** A text the pattern matches nowhere: no opening bracket has a closing
    bracket after it. *)
Fixpoint comment_free (s : text) : bool :=
  match s with
  | [] => true
  | c :: r =>
      (if Char.eqb c "[" then
         match Str.index "]" r with Some _ => false | None => true end
       else true) && comment_free r
  end.

(** A text without surrounding whitespace, and not empty. *)
Definition trimmed (l : text) : Prop := Str.strip l = l /\ l <> [].

(** A label as the data model wants it: trimmed, not empty, without a
    final semicolon. *)
Definition label_clean (l : text) : Prop :=
  trimmed l /\ Str.rstrip_char ";" l = l.

(** ** The MATRIX step without a terminator *)

(** The keyword occurs and no semicolon follows its first occurrence. *)
Definition matrix_unterminated (t : text) : Prop :=
  exists midx,
    Str.find (str "matrix") (Str.lower t) = Some midx /\
    Str.index ";" (skipn (midx + 6) t) = None.

(** ** The FASTA rule *)

(** The FASTA rule in the words of the specification: for a line that
    begins with the marker, the text after the marker; nothing when only
    whitespace follows; otherwise its first whitespace-delimited token. *)
Module FastaSpec.

Fixpoint drop_while {A} (p : A -> bool) (l : list A) : list A :=
  match l with
  | [] => []
  | x :: r => if p x then drop_while p r else l
  end.

Fixpoint take_while {A} (p : A -> bool) (l : list A) : list A :=
  match l with
  | [] => []
  | x :: r => if p x then x :: take_while p r else []
  end.

Definition first_token (s : text) : option text :=
  match drop_while Char.isspace s with
  | [] => None
  | s' => Some (take_while (fun c => negb (Char.isspace c)) s')
  end.

Definition header_label (line : text) : option text :=
  match line with
  | c :: rest => if Char.eqb c ">" then first_token rest else None
  | [] => None
  end.

(** The set of labels of the header lines of a file. *)
Definition fasta_labels (t : text) : gset text :=
  list_to_set (omap header_label (readlines (universal_newlines t))).

End FastaSpec.

(** ** What a file contributes *)

(** The extractor the aggregator runs on a file, if any. *)
Definition extract (p : File) : option (result (gset text)) :=
  match detect_format_from_content p with
  | Fasta => Some (parse_fasta_taxa p)
  | Nexus => Some (parse_nexus_taxa p)
  | Unknown => None
  end.

(** What a file contributes when its extraction succeeds. *)
Definition labels_of (p : File) : gset text :=
  match extract p with
  | Some (Ok ts) => ts
  | _ => ∅
  end.

(** Lowering [s] keeps the place of every character: [s.lower()] is as
    long as [s].  Python lowers U+0130 to two characters, so a text
    that holds it fails this; no character below 256 does.  The steps
    that look a keyword up in the lowered text and cut the text itself
    at the index found rest on it. *)
Definition lower_aligned (s : text) : bool :=
  length (Str.lower s) =? length s.

(** ** Well-formed TAXLABELS blocks *)

Module Taxlabels.

(** A taxon name as written in the block: bare, or between two quotes
    [q] of one kind. *)
Inductive Name : Type :=
| Bare (s : text)
| Quoted (q : ascii) (s : text).

(** The name itself. *)
Definition name_text (n : Name) : text :=
  match n with Bare s => s | Quoted _ s => s end.

(** The name as written. *)
Definition render (n : Name) : text :=
  match n with
  | Bare s => s
  | Quoted q s => q :: s ++ [q]
  end.

Definition absent (c : ascii) (s : text) : bool := negb (Str.contains c s).
Definition blankb (s : text) : bool := forallb Char.isspace s.
Definition solidb (s : text) : bool :=
  forallb (fun c => negb (Char.isspace c)) s.
Definition is_quoteb (q : ascii) : bool := Char.eqb q SQUOTE || Char.eqb q DQUOTE.
Definition nonemptyb (s : text) : bool :=
  match s with [] => false | _ => true end.
Definition trimmedb (s : text) : bool :=
  text_eqb (Str.strip s) s && nonemptyb s.

(** A name the block can hold: no semicolon and no opening bracket; a
    bare name is a non-empty run without whitespace that does not start
    with a quote; a quoted name is trimmed, not empty, and does not
    hold its own quote. *)
Definition valid_name (n : Name) : bool :=
  absent ";" (name_text n) && absent "[" (name_text n) &&
  match n with
  | Bare s =>
      solidb s &&
      match s with
      | [] => false
      | c :: _ => negb (is_quoteb c)
      end
  | Quoted q s => is_quoteb q && absent q s && trimmedb s
  end.

(** Names, each after a separator. *)
Fixpoint render_block (items : list (text * Name)) : text :=
  match items with
  | [] => []
  | (ws, n) :: rest => ws ++ render n ++ render_block rest
  end.

Definition valid_item (it : text * Name) : bool :=
  blankb (fst it) && nonemptyb (fst it) && valid_name (snd it).

Definition names (items : list (text * Name)) : list text :=
  map (fun it => name_text (snd it)) items.

(** A NEXUS text with one TAXLABELS block: [pre] before the keyword
    [kw], the names, whitespace [trail], the terminator, and [post]. *)
Definition nexus_text (pre kw : text) (items : list (text * Name))
    (trail post : text) : text :=
  pre ++ kw ++ render_block items ++ trail ++ ";"%char :: post.

(** The keyword in any case, at least one name, valid names separated
    by whitespace; before the keyword every comment is closed, and what
    the comments leave holds no place where the keyword would already be
    read and keeps its places when lowered. *)
Definition well_formed (pre kw : text) (items : list (text * Name))
    (trail : text) : bool :=
  text_eqb (Str.lower kw) (str "taxlabels") &&
  absent "[" (strip_nexus_comments pre) &&
  match Str.find (str "taxlabels")
                 (Str.lower (strip_nexus_comments pre) ++ str "taxlabel") with
  | None => true
  | Some _ => false
  end &&
  match items with [] => false | _ => true end &&
  forallb valid_item items &&
  blankb trail &&
  lower_aligned (strip_nexus_comments pre).

(** A name as a NEXUS file may write it, the doubled quote apart: a
    bare name as above; a quoted name is not empty and does not hold
    its own quote, and may hold any other character. *)
Definition written_name (n : Name) : bool :=
  match n with
  | Bare s => valid_name n
  | Quoted q s => is_quoteb q && absent q s && nonemptyb s
  end.

(** A block with bare and quoted names as NEXUS writes them, in a text
    that is otherwise as [well_formed] asks. *)
Definition mixed_block (pre kw : text) (items : list (text * Name))
    (trail : text) : bool :=
  text_eqb (Str.lower kw) (str "taxlabels") &&
  absent "[" (strip_nexus_comments pre) &&
  match Str.find (str "taxlabels")
                 (Str.lower (strip_nexus_comments pre) ++ str "taxlabel") with
  | None => true
  | Some _ => false
  end &&
  match items with [] => false | _ => true end &&
  forallb (fun it => blankb (fst it) && nonemptyb (fst it) && written_name (snd it))
          items &&
  blankb trail &&
  lower_aligned (strip_nexus_comments pre).

End Taxlabels.

(** ** Rows of the group table *)

(** What a data row enters in the table, for the columns [tax_idx] and
    [grp_idx]: nothing when the row is too short or its taxon is empty. *)
Definition row_entry (tax_idx grp_idx : nat) (r : list text) : option (text * text) :=
  if length r <=? Nat.max tax_idx grp_idx then None
  else match Str.strip (nth tax_idx r []) with
       | [] => None
       | taxon => Some (taxon, Str.strip (nth grp_idx r []))
       end.

(** A reader for tables without quoted fields: each line is split at the
    delimiter. *)
Definition plain_reader (lines : list text) (delim : ascii) : list (list text) :=
  map (split_on delim) lines.

(** ** Sample inputs *)

Definition unterminated_sample : text :=
  str "matrix" ++ [LF] ++ str "taxA ACGT" ++ [LF] ++ str "taxB ACGA".

Definition both_blocks_sample : text :=
  str "taxlabels a b; matrix" ++ [LF] ++ str "c ACGT" ++ [LF] ++ str ";".

Definition matrix_only_sample : text :=
  str "begin data; matrix" ++ [LF] ++ str "c ACGT" ++ [LF] ++ str ";".

Definition scenario_A : text :=
  str ">taxA desc" ++ [LF] ++ str "ACGT" ++ [LF] ++
  str ">taxB" ++ [LF] ++ str "GGCC" ++ [LF] ++
  str ">taxA dup" ++ [LF] ++ str "ACGA" ++ [LF].

Definition scenario_B : text := str "TAXLABELS 'tax one' taxB taxC;".

Definition sample_fasta : File :=
  mkFile (str "a.fasta") (str ".fasta") (Some scenario_A).

Definition sample_unreadable : File :=
  mkFile (str "b.nex") (str ".nex") None.

Definition sample_nexus : File :=
  mkFile (str "c.nex") (str ".nex")
         (Some (str "#NEXUS" ++ [LF] ++ str "begin taxa; taxlabels t1 t2; end;")).

Definition semicolon_fasta : File :=
  mkFile (str "s.fasta") (str ".fasta") (Some (str ">taxA; sample 1" ++ [LF])).

Definition sample_groups : File :=
  mkFile (str "groups.csv") (str ".csv")
         (Some (str "Taxon,Group" ++ [LF] ++ str "taxA, g1" ++ [LF]
                ++ str "taxB,g2" ++ [LF] ++ str "taxA ,g3" ++ [LF]
                ++ str "short" ++ [LF])).

Definition unknown_file : File :=
  mkFile (str "notes.txt") (str ".txt") (Some (str "plain notes" ++ [LF])).

Definition scenario_E_args : Args :=
  mkArgs (str "*.txt, *.dat") None (str "species") (str "astral.map") None
         false false.

Definition scenario_E_disk : Disk :=
  mkDisk (Ok true)
         (fun pat => Ok (if text_eqb pat (str "*.txt") then [unknown_file] else []))
         (fun _ _ => Written).

(** ** Further notions *)

(** One of the two quote characters, as a test. *)
Definition quote_char (c : ascii) : bool := Char.eqb c SQUOTE || Char.eqb c DQUOTE.

(** No quote character is followed, anywhere later, by the same quote:
    the pattern finds no quoted span. *)
Fixpoint no_quoted_span (s : text) : bool :=
  match s with
  | [] => true
  | c :: r =>
      (if quote_char c then negb (Str.contains c r) else true)
      && no_quoted_span r
  end.

(** ** Well-formed MATRIX blocks *)

Module MatrixBlock.

(** A line of the block: a taxon name, a gap, its characters; or a line
    of spaces and tabs, as between the groups of an interleaved matrix. *)
Inductive Row : Type :=
| Data (name sep data : text)
| Empty (ws : text).

Definition row_line (r : Row) : text :=
  match r with
  | Data n sep d => n ++ sep ++ d
  | Empty ws => ws
  end.

(** The lines, each closed by a line feed. *)
Definition render_rows (rows : list Row) : text :=
  flat_map (fun r => row_line r ++ [LF]) rows.

(** The taxon names of the data lines, in order. *)
Definition row_names (rows : list Row) : list text :=
  flat_map (fun r => match r with Data n _ _ => [n] | Empty _ => [] end) rows.

(** Spaces and tabs only. *)
Definition inlineb (s : text) : bool :=
  forallb (fun c => Char.eqb c " " || Char.eqb c TAB) s.

(** A data line has a name without whitespace or semicolon that does not
    start with a quote, a gap of spaces and tabs, and characters without
    whitespace or semicolon; the line does not start with a skipped
    word. *)
Definition valid_row (r : Row) : bool :=
  match r with
  | Data n sep d =>
      Taxlabels.solidb n &&
      match n with [] => false | c :: _ => negb (quote_char c) end &&
      Taxlabels.absent ";" n &&
      inlineb sep && Taxlabels.nonemptyb sep &&
      Taxlabels.solidb d && Taxlabels.nonemptyb d && Taxlabels.absent ";" d &&
      negb (skipped_line (row_line r))
  | Empty ws => inlineb ws
  end.

(** A NEXUS text with a MATRIX block: [pre], the keyword [kw], the rest
    [gap] of its line, the lines, [trail] before the terminator, and
    [post]. *)
Definition matrix_text (pre kw gap : text) (rows : list Row)
    (trail post : text) : text :=
  pre ++ kw ++ (gap ++ LF :: render_rows rows ++ trail) ++ ";"%char :: post.

(** The keyword in any case, not read earlier in a text that keeps its
    places when lowered, and valid lines. *)
Definition well_formed (pre kw gap : text) (rows : list Row) (trail : text) : bool :=
  text_eqb (Str.lower kw) (str "matrix") &&
  match Str.find (str "matrix") (Str.lower pre ++ str "matri") with
  | None => true
  | Some _ => false
  end &&
  inlineb gap && forallb valid_row rows && inlineb trail &&
  lower_aligned pre.

End MatrixBlock.

(** A text without line boundary. *)
Definition one_line (s : text) : Prop :=
  Forall (fun c => Char.eqb c CR = false /\ Char.islinebreak c = false) s.

(** An interleaved matrix of two taxa in two groups. *)
Definition interleaved_rows : list MatrixBlock.Row :=
  [MatrixBlock.Data (str "t1") (str " ") (str "ACGT");
   MatrixBlock.Data (str "t2") [TAB] (str "AC-T");
   MatrixBlock.Empty [];
   MatrixBlock.Data (str "t1") (str "  ") (str "GGTT");
   MatrixBlock.Data (str "t2") (str " ") (str "GG-A")].

Definition interleaved_sample : text :=
  MatrixBlock.matrix_text
    (str "#NEXUS" ++ [LF] ++ str "begin data;" ++ [LF]
       ++ str "format interleave;" ++ [LF])
    (str "MATRIX") [] interleaved_rows [] (LF :: str "end;").

(** Lines of spaces and tabs, each closed by a line feed. *)
Definition blank_lines (wss : list text) : text :=
  flat_map (fun ws => ws ++ [LF]) wss.

(** Files whose content and extension disagree. *)
Definition fasta_named_nex : File :=
  mkFile (str "a.nex") (str ".nex") (Some (str ">taxA" ++ [LF] ++ str "ACGT")).

Definition nexus_named_fasta : File :=
  mkFile (str "b.fasta") (str ".fasta") (Some (str "#Nexus" ++ [LF] ++ str ">x")).

(** A run on one FASTA file, with the list of taxa asked for. *)
Definition lax_args : Args :=
  mkArgs (str "*.fasta") None (str "species") (str "astral.map")
         (Some (str "taxa.txt")) false false.

Definition lax_disk : Disk :=
  mkDisk (Ok true)
         (fun pat => Ok (if text_eqb pat (str "*.fasta") then [sample_fasta] else []))
         (fun _ _ => Written).

(** A search with a pattern that is not relative, which [rglob]
    refuses. *)
Definition absolute_args : Args :=
  mkArgs (str "*.nex,/x") None (str "species") (str "astral.map") None
         false false.

Definition relative_only_disk : Disk :=
  mkDisk (Ok true)
         (fun pat => if Str.startswith (str "/") pat
                     then Raise NotImplementedError
                     else Ok (if text_eqb pat (str "*.nex")
                              then [sample_nexus] else []))
         (fun _ _ => Written).

(* ================================================================== *)
(** * Properties *)

(** ** Facts on the string methods *)

Module StrFacts.

Lemma eqb_eq (a b : ascii) : Char.eqb a b = true <-> a = b.
Proof. unfold Char.eqb. apply Ascii.eqb_eq. Qed.

Lemma eqb_neq (a b : ascii) : Char.eqb a b = false <-> a <> b.
Proof. unfold Char.eqb. apply Ascii.eqb_neq. Qed.

Lemma eqb_refl (a : ascii) : Char.eqb a a = true.
Proof. apply eqb_eq. reflexivity. Qed.

Lemma eqb_sym (a b : ascii) : Char.eqb a b = Char.eqb b a.
Proof. unfold Char.eqb. apply Ascii.eqb_sym. Qed.

(** [index] finds a character exactly when it occurs. *)
Lemma index_None (c : ascii) (s : text) : Str.index c s = None <-> ~ In c s.
Proof.
  induction s as [|x r IH]; simpl.
  - tauto.
  - destruct (Char.eqb c x) eqn:E.
    + apply eqb_eq in E. subst. split; [discriminate | intros H; exfalso; auto].
    + apply eqb_neq in E. destruct (Str.index c r); simpl.
      * split; [discriminate|]. intros H. exfalso.
        assert (F : ~ In c r) by (intros F; apply H; right; exact F).
        apply IH in F. discriminate.
      * split; [|reflexivity]. intros _ [H|H]; [congruence | tauto].
Qed.

(** The index found is that of the first occurrence: the text splits
    around it. *)
Lemma index_Some (c : ascii) (s : text) (n : nat) :
  Str.index c s = Some n ->
  s = firstn n s ++ c :: skipn (S n) s /\ ~ In c (firstn n s) /\ n < length s.
Proof.
  revert n. induction s as [|x r IH]; simpl; intros n H; [discriminate|].
  destruct (Char.eqb c x) eqn:E.
  - apply eqb_eq in E. inversion H. subst. simpl.
    repeat split; auto with arith; lia.
  - apply eqb_neq in E. destruct (Str.index c r) as [m|] eqn:Hm; [|discriminate].
    inversion H; subst. destruct (IH m eq_refl) as (H1 & H2 & H3).
    simpl. repeat split; [f_equal; exact H1 | | lia].
    intros [F|F]; [congruence | tauto].
Qed.

Lemma index_app_first (c : ascii) (a b : text) :
  ~ In c a -> Str.index c (a ++ c :: b) = Some (length a).
Proof.
  induction a as [|x a IH]; simpl; intros H.
  - rewrite eqb_refl. reflexivity.
  - destruct (Char.eqb c x) eqn:E.
    + apply eqb_eq in E. exfalso. auto.
    + rewrite IH by tauto. reflexivity.
Qed.

Lemma index_app_Some (c : ascii) (a b : text) (n : nat) :
  Str.index c a = Some n -> Str.index c (a ++ b) = Some n.
Proof.
  revert n. induction a as [|x a IH]; simpl; intros n; [discriminate|].
  destruct (Char.eqb c x); [tauto|].
  destruct (Str.index c a) as [m|]; [|discriminate].
  rewrite (IH m eq_refl). tauto.
Qed.

Lemma index_app_None (c : ascii) (a b : text) :
  ~ In c a -> Str.index c (a ++ b) = option_map (Nat.add (length a)) (Str.index c b).
Proof.
  induction a as [|x a IH]; simpl; intros H.
  - destruct (Str.index c b); reflexivity.
  - destruct (Char.eqb c x) eqn:E.
    + apply eqb_eq in E. exfalso. auto.
    + rewrite IH by tauto. destruct (Str.index c b); reflexivity.
Qed.

Lemma firstn_In {A} (x : A) (n : nat) (l : list A) :
  In x (firstn n l) -> In x l.
Proof.
  intros H. rewrite <- (firstn_skipn n l). apply in_or_app. left. exact H.
Qed.

Lemma skipn_In {A} (x : A) (n : nat) (l : list A) :
  In x (skipn n l) -> In x l.
Proof.
  intros H. rewrite <- (firstn_skipn n l). apply in_or_app. right. exact H.
Qed.

End StrFacts.

(* ------------------------------------------------------------------ *)
(** ** Comment stripping *)

Module CommentFacts.
Import StrFacts.

Lemma sub_comment_free (s : text) :
  comment_free s = true -> sub_comment_re 0 s = s.
Proof.
  induction s as [|c r IH]; simpl; [reflexivity|].
  intros H. apply andb_true_iff in H as [H1 H2].
  destruct (Char.eqb c "[").
  - destruct (Str.index "]" r); [discriminate|]. f_equal. auto.
  - f_equal. auto.
Qed.

(** What is kept is kept in order: a character absent from the text is
    absent from the result. *)
Lemma sub_comment_In (x : ascii) (s : text) (k : nat) :
  In x (sub_comment_re k s) -> In x s.
Proof.
  revert k. induction s as [|c r IH]; simpl; intros k H; [assumption|].
  destruct k as [|k].
  - destruct (Char.eqb c "[").
    + destruct (Str.index "]" r).
      * right. eapply IH. eassumption.
      * destruct H as [H|H]; [left; assumption | right; eapply IH; eassumption].
    + destruct H as [H|H]; [left; assumption | right; eapply IH; eassumption].
  - right. eapply IH. eassumption.
Qed.

Lemma sub_comment_index_None (x : ascii) (s : text) (k : nat) :
  Str.index x s = None -> Str.index x (sub_comment_re k s) = None.
Proof.
  rewrite !index_None. intros H F. apply H. eapply sub_comment_In. eassumption.
Qed.

Lemma sub_comment_is_free (s : text) (k : nat) :
  comment_free (sub_comment_re k s) = true.
Proof.
  revert k. induction s as [|c r IH]; intros k; simpl; [reflexivity|].
  destruct k as [|k]; [|apply IH].
  destruct (Char.eqb c "[") eqn:E.
  - destruct (Str.index "]" r) eqn:Hi; [apply IH|].
    simpl. rewrite E, (sub_comment_index_None _ _ _ Hi), IH. reflexivity.
  - simpl. rewrite E, IH. reflexivity.
Qed.

(** A stretch without opening bracket is copied. *)
Lemma sub_comment_app (a b : text) :
  ~ In "["%char a -> sub_comment_re 0 (a ++ b) = a ++ sub_comment_re 0 b.
Proof.
  induction a as [|c a IH]; simpl; intros H; [reflexivity|].
  destruct (Char.eqb c "[") eqn:E.
  - apply eqb_eq in E. exfalso. auto.
  - f_equal. apply IH. tauto.
Qed.

(** A stretch whose comments are all closed is stripped on its own. *)
Lemma sub_comment_closed (a b : text) :
  forall k, k <= length a -> ~ In "["%char (sub_comment_re k a) ->
            sub_comment_re k (a ++ b) = sub_comment_re k a ++ sub_comment_re 0 b.
Proof.
  induction a as [|c a IH]; intros k L H.
  - simpl in L. replace k with 0 by lia. reflexivity.
  - simpl in *. destruct k as [|k]; [|apply IH; [lia | exact H]].
    destruct (Char.eqb c "[") eqn:E.
    + destruct (Str.index "]" a) as [n|] eqn:I.
      * rewrite (index_app_Some _ _ b _ I).
        apply index_Some in I as (_ & _ & I). apply IH; [lia | exact H].
      * exfalso. apply H. left. apply eqb_eq in E. exact E.
    + simpl. f_equal. apply IH; [lia|]. intros F. apply H. right. exact F.
Qed.

End CommentFacts.

(** C6: comment stripping is idempotent: stripping the comments of an
    already stripped text changes nothing. *)
Theorem strip_nexus_comments_idempotent (t : text) :
  strip_nexus_comments (strip_nexus_comments t) = strip_nexus_comments t.
Proof.
  unfold strip_nexus_comments.
  apply CommentFacts.sub_comment_free, CommentFacts.sub_comment_is_free.
Qed.

(* ------------------------------------------------------------------ *)
(** ** Searching a keyword *)

Module FindFacts.
Import StrFacts.

Lemma startswith_app (p s x : text) :
  Str.startswith p s = true -> Str.startswith p (s ++ x) = true.
Proof.
  revert s. induction p as [|a p IH]; intros [|b s]; simpl; try easy.
  intros H. apply andb_true_iff in H as [H1 H2]. rewrite H1. simpl. auto.
Qed.

Lemma startswith_length (p s : text) :
  Str.startswith p s = true -> length p <= length s.
Proof.
  revert s. induction p as [|a p IH]; intros [|b s]; simpl; try easy; try lia.
  intros H. apply andb_true_iff in H as [_ H]. apply IH in H. lia.
Qed.

Lemma startswith_app_inv (p s x : text) :
  Str.startswith p (s ++ x) = true -> length p <= length s ->
  Str.startswith p s = true.
Proof.
  revert s. induction p as [|a p IH]; intros [|b s]; simpl; try easy; try lia.
  intros H L. apply andb_true_iff in H as [H1 H2]. rewrite H1. simpl.
  apply IH; [assumption | lia].
Qed.

Lemma startswith_self_app (p x : text) : Str.startswith p (p ++ x) = true.
Proof. induction p; simpl; [reflexivity|]. rewrite eqb_refl. assumption. Qed.

Lemma startswith_split (p s : text) :
  Str.startswith p s = true -> s = p ++ skipn (length p) s.
Proof.
  revert s. induction p as [|a p IH]; intros [|b s]; simpl; try easy.
  intros H. apply andb_true_iff in H as [H1 H2]. apply eqb_eq in H1. subst.
  f_equal. auto.
Qed.

Lemma find_bound (p s : text) (i : nat) :
  Str.find p s = Some i -> i + length p <= length s.
Proof.
  revert i. induction s as [|c r IH]; intros i; simpl.
  - destruct (Str.startswith p []) eqn:E; [|discriminate].
    intros H. inversion H. apply startswith_length in E. simpl in *. lia.
  - destruct (Str.startswith p (c :: r)) eqn:E.
    + intros H. inversion H. apply startswith_length in E. simpl in *. lia.
    + destruct (Str.find p r) as [j|]; [|discriminate].
      intros H. inversion H. specialize (IH j eq_refl). lia.
Qed.

(** The place found is an occurrence. *)
Lemma find_startswith (p s : text) (i : nat) :
  Str.find p s = Some i -> Str.startswith p (skipn i s) = true.
Proof.
  revert i. induction s as [|c r IH]; intros i; simpl.
  - destruct (Str.startswith p []) eqn:E; [|discriminate].
    intros H. inversion H. assumption.
  - destruct (Str.startswith p (c :: r)) eqn:E.
    + intros H. inversion H. assumption.
    + destruct (Str.find p r) as [j|]; [|discriminate].
      intros H. inversion H. simpl. auto.
Qed.

(** What follows the text does not move the first occurrence. *)
Lemma find_app (p s x : text) (i : nat) :
  Str.find p s = Some i -> Str.find p (s ++ x) = Some i.
Proof.
  revert i. induction s as [|c r IH]; intros i.
  - simpl. destruct (Str.startswith p []) eqn:E; [|discriminate].
    intros H. destruct p; [|discriminate]. destruct x; exact H.
  - simpl. destruct (Str.startswith p (c :: r)) eqn:E.
    + intros H. change (c :: r ++ x) with ((c :: r) ++ x).
      rewrite (startswith_app _ _ x E). exact H.
    + destruct (Str.find p r) as [j|] eqn:F; [|discriminate].
      intros H. rewrite (IH j eq_refl).
      destruct (Str.startswith p (c :: r ++ x)) eqn:E'; [|exact H].
      exfalso. apply find_bound in F.
      change (c :: r ++ x) with ((c :: r) ++ x) in E'.
      apply startswith_app_inv in E'; [congruence | simpl; lia].
Qed.

(** An occurrence at the end of [a], with none that starts inside [a]. *)
Lemma find_at (p a b : text) :
  Str.startswith p b = true ->
  Str.find p (a ++ firstn (length p - 1) b) = None ->
  Str.find p (a ++ b) = Some (length a).
Proof.
  intros Hb. induction a as [|c a IH]; simpl.
  - intros _. destruct b; simpl; simpl in Hb; rewrite Hb; reflexivity.
  - destruct (Str.startswith p (c :: a ++ firstn (length p - 1) b)) eqn:E;
      [discriminate|].
    destruct (Str.find p (a ++ firstn (length p - 1) b)) eqn:F; [discriminate|].
    intros _. rewrite (IH eq_refl).
    destruct (Str.startswith p (c :: a ++ b)) eqn:E'; [|reflexivity].
    exfalso.
    assert (L : length p <= length b) by (apply startswith_length; assumption).
    rewrite <- (firstn_skipn (length p - 1) b) in E'.
    rewrite app_comm_cons, app_assoc in E'.
    rewrite app_comm_cons in E.
    apply startswith_app_inv in E'; [congruence|].
    rewrite length_app, length_firstn. simpl. lia.
Qed.

Lemma lower_app (a b : text) : Str.lower (a ++ b) = Str.lower a ++ Str.lower b.
Proof. apply map_app. Qed.

Lemma lower_length (a : text) : length (Str.lower a) = length a.
Proof. apply length_map. Qed.

Lemma lower_firstn (n : nat) (a : text) :
  Str.lower (firstn n a) = firstn n (Str.lower a).
Proof. unfold Str.lower. symmetry. apply firstn_map. Qed.

End FindFacts.

(* ------------------------------------------------------------------ *)
(** ** The MATRIX step without a terminator *)

Lemma unterminated_sample_spec : matrix_unterminated unterminated_sample.
Proof. exists 0. split; reflexivity. Qed.

(** C1, refuted as stated: a MATRIX block that no semicolon closes still
    yields the leading token of each of its rows. *)
Lemma parse_matrix_block_unterminated_labels :
  ~ (forall t, matrix_unterminated t -> parse_matrix_block t = []).
Proof.
  intros H. specialize (H _ unterminated_sample_spec).
  vm_compute in H. discriminate.
Qed.

(** C1, amended: when no semicolon follows the keyword, the rows are read
    from all the text after it, up to the end; the outcome is that of the
    same text closed by a final semicolon. *)
Theorem parse_matrix_block_unterminated (t : text) (midx : nat)
    (Hfind : Str.find (str "matrix") (Str.lower t) = Some midx)
    (Hsemi : Str.index ";" (skipn (midx + 6) t) = None) :
  parse_matrix_block t = matrix_rows (Str.splitlines (skipn (midx + 6) t)) /\
  parse_matrix_block t = parse_matrix_block (t ++ [";"%char]).
Proof.
  assert (E : parse_matrix_block t
              = matrix_rows (Str.splitlines (skipn (midx + 6) t))).
  { unfold parse_matrix_block. rewrite Hfind. simpl length. rewrite Hsemi.
    reflexivity. }
  split; [exact E|]. rewrite E.
  unfold parse_matrix_block.
  rewrite FindFacts.lower_app, (FindFacts.find_app _ _ _ _ Hfind).
  simpl length.
  assert (L : midx + 6 <= length t).
  { apply FindFacts.find_bound in Hfind.
    rewrite FindFacts.lower_length in Hfind. exact Hfind. }
  rewrite skipn_app.
  replace (midx + 6 - length t) with 0 by lia. simpl skipn.
  apply StrFacts.index_None in Hsemi.
  rewrite (StrFacts.index_app_first _ _ _ Hsemi).
  rewrite firstn_app, Nat.sub_diag, firstn_all. simpl. rewrite app_nil_r.
  reflexivity.
Qed.

Lemma parse_matrix_block_unterminated_witness :
  parse_matrix_block unterminated_sample = [str "taxA"; str "taxB"].
Proof.
  rewrite (proj1 (parse_matrix_block_unterminated unterminated_sample 0
                    eq_refl eq_refl)).
  reflexivity.
Defined.

(* ------------------------------------------------------------------ *)
(** ** Priority of TAXLABELS *)

Lemma parse_nexus_with_cases (raw : text) (matrix_step : text -> list text) :
  let no_comments := strip_nexus_comments raw in
  let labels := parse_taxlabels_block no_comments in
  (labels <> [] ->
   parse_nexus_with matrix_step raw = cleaned (list_to_set labels)) /\
  (labels = [] ->
   parse_nexus_with matrix_step raw = cleaned (list_to_set (matrix_step no_comments))).
Proof.
  intros no_comments labels. unfold parse_nexus_with.
  fold no_comments. fold labels. split; intros H.
  - destruct labels as [|l ls]; [contradiction|].
    destruct (decide (∅ ∪ list_to_set (l :: ls) = (∅ : gset text))) as [E|E].
    + exfalso. rewrite union_empty_l_L in E.
      apply (not_elem_of_empty (C := gset text) l).
      rewrite <- E. apply elem_of_list_to_set. left.
    + f_equal. apply union_empty_l_L.
  - rewrite H. destruct (decide ((∅ : gset text) = ∅)); [|contradiction].
    f_equal. apply union_empty_l_L.
Qed.

(** C3: when the TAXLABELS step yields a label, the result is the cleaned
    set of its tokens whatever the MATRIX step would return; the MATRIX
    step decides the result only when the TAXLABELS step yields nothing. *)
Theorem taxlabels_priority (raw : text) (matrix_step : text -> list text) :
  let no_comments := strip_nexus_comments raw in
  let labels := parse_taxlabels_block no_comments in
  (labels <> [] ->
   parse_nexus_with matrix_step raw = cleaned (list_to_set labels)) /\
  (labels = [] ->
   parse_nexus_with matrix_step raw = cleaned (list_to_set (matrix_step no_comments))).
Proof. exact (parse_nexus_with_cases raw matrix_step). Qed.

Lemma taxlabels_priority_witness :
  parse_nexus_with (fun _ => [str "zzz"]) both_blocks_sample
  = cleaned (list_to_set [str "a"; str "b"])
  /\ parse_nexus_text matrix_only_sample = cleaned (list_to_set [str "c"]).
Proof.
  split.
  - apply (proj1 (taxlabels_priority both_blocks_sample (fun _ => [str "zzz"]))).
    intros E. vm_compute in E. inversion E.
  - apply (proj2 (taxlabels_priority matrix_only_sample parse_matrix_block)).
    reflexivity.
Defined.

(* ------------------------------------------------------------------ *)
(** ** Trimming *)

Module StripFacts.
Import StrFacts.

Lemma lstrip_snoc (a : text) (c : ascii) :
  Str.lstrip (a ++ [c]) =
  match Str.lstrip a with
  | [] => if Char.isspace c then [] else [c]
  | x => x ++ [c]
  end.
Proof.
  induction a as [|d a IH]; simpl.
  - destruct (Char.isspace c); reflexivity.
  - destruct (Char.isspace d); [exact IH | reflexivity].
Qed.

Lemma rstrip_rec_ok (s : text) : Str.rstrip s = rstrip_rec s.
Proof.
  unfold Str.rstrip. induction s as [|c r IH]; simpl; [reflexivity|].
  rewrite lstrip_snoc, <- IH.
  destruct (Str.lstrip (rev r)) as [|x xs]; simpl.
  - destruct (Char.isspace c); reflexivity.
  - rewrite rev_app_distr. simpl.
    destruct (rev xs ++ [x]) eqn:E; [|reflexivity].
    destruct (rev xs); discriminate.
Qed.

Lemma rstrip_rec_solid_head (c : ascii) (r : text) :
  Char.isspace c = false -> rstrip_rec (c :: r) = c :: rstrip_rec r.
Proof. intros H. simpl. rewrite H. destruct (rstrip_rec r); reflexivity. Qed.

Lemma rstrip_rec_idem (s : text) : rstrip_rec (rstrip_rec s) = rstrip_rec s.
Proof.
  induction s as [|c r IH]; simpl; [reflexivity|].
  destruct (rstrip_rec r) as [|x xs] eqn:E.
  - destruct (Char.isspace c) eqn:Hc; simpl; [reflexivity|].
    rewrite Hc. reflexivity.
  - change (rstrip_rec (c :: x :: xs))
      with (match rstrip_rec (x :: xs) with
            | [] => if Char.isspace c then [] else [c]
            | r' => c :: r'
            end).
    rewrite IH. reflexivity.
Qed.

Lemma lstrip_result (s : text) :
  Str.lstrip s = [] \/
  exists c r, Str.lstrip s = c :: r /\ Char.isspace c = false.
Proof.
  induction s as [|c r IH]; simpl; [left; reflexivity|].
  destruct (Char.isspace c) eqn:E; [exact IH|].
  right. exists c, r. split; [reflexivity | exact E].
Qed.

(** [strip] keeps a text that starts solid from its first character on. *)
Lemma strip_cases (s : text) :
  (Str.lstrip s = [] /\ Str.strip s = []) \/
  exists c r, Str.lstrip s = c :: r /\ Char.isspace c = false /\
              Str.strip s = c :: rstrip_rec r.
Proof.
  unfold Str.strip. rewrite rstrip_rec_ok.
  destruct (lstrip_result s) as [E | (c & r & E & Hc)]; rewrite E.
  - left. split; reflexivity.
  - right. exists c, r. repeat split; [exact Hc|].
    apply rstrip_rec_solid_head. exact Hc.
Qed.

Lemma strip_idem (s : text) : Str.strip (Str.strip s) = Str.strip s.
Proof.
  destruct (strip_cases s) as [[_ E] | (c & r & _ & Hc & E)]; rewrite E.
  - reflexivity.
  - unfold Str.strip. simpl. rewrite Hc, rstrip_rec_ok.
    rewrite <- (rstrip_rec_solid_head c r Hc). apply rstrip_rec_idem.
Qed.

Lemma lstrip_In (x : ascii) (s : text) : In x (Str.lstrip s) -> In x s.
Proof.
  induction s as [|c r IH]; simpl; [tauto|].
  destruct (Char.isspace c); [right; auto | tauto].
Qed.

Lemma rstrip_In (x : ascii) (s : text) : In x (Str.rstrip s) -> In x s.
Proof.
  unfold Str.rstrip. rewrite <- in_rev. intros H. apply lstrip_In in H.
  rewrite <- in_rev in H. exact H.
Qed.

Lemma strip_In (x : ascii) (s : text) : In x (Str.strip s) -> In x s.
Proof. unfold Str.strip. intros H. apply lstrip_In, rstrip_In, H. Qed.

(** The whitespace taken off on either side. *)
Lemma lstrip_split (s : text) : exists ws, blank ws /\ s = ws ++ Str.lstrip s.
Proof.
  induction s as [|c r (ws & B & E)]; simpl.
  - exists []. split; [constructor | reflexivity].
  - destruct (Char.isspace c) eqn:Hc.
    + exists (c :: ws). split; [constructor; assumption | simpl; f_equal; exact E].
    + exists []. split; [constructor | reflexivity].
Qed.

Lemma rstrip_split (s : text) : exists ws, blank ws /\ s = Str.rstrip s ++ ws.
Proof.
  destruct (lstrip_split (rev s)) as (ws & B & E).
  exists (rev ws). split.
  - apply List.Forall_rev. exact B.
  - unfold Str.rstrip. rewrite <- rev_app_distr, <- E, rev_involutive.
    reflexivity.
Qed.

Lemma lstrip_solid_head (c : ascii) (r : text) :
  Char.isspace c = false -> Str.lstrip (c :: r) = c :: r.
Proof. intros H. simpl. rewrite H. reflexivity. Qed.

Lemma rstrip_rec_solid (s : text) : solid s -> rstrip_rec s = s.
Proof.
  induction 1 as [|c r Hc _ IH]; [reflexivity|].
  rewrite rstrip_rec_solid_head, IH by assumption. reflexivity.
Qed.

(** A text without whitespace is its own trimming. *)
Lemma strip_solid (s : text) : solid s -> Str.strip s = s.
Proof.
  intros H. unfold Str.strip. rewrite rstrip_rec_ok.
  destruct H as [|c r Hc Hr]; [reflexivity|].
  rewrite lstrip_solid_head by assumption.
  apply rstrip_rec_solid. constructor; assumption.
Qed.

Lemma lstrip_char_absent (c : ascii) (s : text) :
  ~ In c s -> Str.lstrip_char c s = s.
Proof.
  destruct s as [|x r]; simpl; [reflexivity|]. intros H.
  destruct (Char.eqb c x) eqn:E; [|reflexivity].
  apply eqb_eq in E. exfalso. auto.
Qed.

Lemma rstrip_char_absent (c : ascii) (s : text) :
  ~ In c s -> Str.rstrip_char c s = s.
Proof.
  intros H. unfold Str.rstrip_char. rewrite lstrip_char_absent.
  - apply rev_involutive.
  - rewrite <- in_rev. exact H.
Qed.

Lemma nonspace_run_solid (s : text) : solid (Str.nonspace_run s).
Proof.
  induction s as [|c r IH]; simpl; [constructor|].
  destruct (Char.isspace c) eqn:E; constructor; assumption.
Qed.

Lemma nonspace_run_In (x : ascii) (s : text) :
  In x (Str.nonspace_run s) -> In x s.
Proof.
  induction s as [|c r IH]; simpl; [tauto|].
  destruct (Char.isspace c); simpl; tauto.
Qed.

Lemma nonspace_run_rstrip_rec (r : text) :
  Str.nonspace_run (rstrip_rec r) = Str.nonspace_run r.
Proof.
  induction r as [|c r IH]; simpl; [reflexivity|].
  destruct (Char.isspace c) eqn:E.
  - destruct (rstrip_rec r); simpl; [reflexivity|]. rewrite E. reflexivity.
  - destruct (rstrip_rec r) eqn:R; simpl; rewrite E; f_equal.
    + rewrite <- IH. reflexivity.
    + exact IH.
Qed.

End StripFacts.

(* ------------------------------------------------------------------ *)
(** ** Tokens *)

Module TokenFacts.
Import StrFacts StripFacts.

Lemma quote_solid (q : ascii) : is_quote q -> Char.isspace q = false.
Proof. intros [->| ->]; reflexivity. Qed.

(** The scan resumes after the characters of a match. *)
Lemma finditer_skip (a b : text) (k : nat) :
  finditer_tokens (length a + k) (a ++ b) = finditer_tokens k b.
Proof. induction a as [|c a IH]; simpl; [reflexivity | exact IH]. Qed.

Lemma finditer_skip0 (a b : text) :
  finditer_tokens (length a) (a ++ b) = finditer_tokens 0 b.
Proof. rewrite <- (Nat.add_0_r (length a)). apply finditer_skip. Qed.

Lemma quoted_group_In (q c x : ascii) (r g : text) :
  quoted_group q c r = Some g -> In x g -> In x r.
Proof.
  unfold quoted_group. destruct (Char.eqb c q); [|discriminate].
  destruct (Str.index q r) as [n|]; [|discriminate]. simpl.
  intros H. inversion H. subst. apply firstn_In.
Qed.

(** Every character of a token is a character of the text scanned. *)
Lemma finditer_chars (s : text) :
  forall k tok x, In tok (finditer_tokens k s) -> In x tok -> In x s.
Proof.
  induction s as [|c r IH]; intros k tok x; simpl; [tauto|].
  destruct k as [|k]; [|intros; right; eapply IH; eassumption].
  destruct (quoted_group SQUOTE c r) as [g|] eqn:Q1.
  { intros [<-|H] Hx; right;
      [eapply quoted_group_In | eapply IH]; eassumption. }
  destruct (quoted_group DQUOTE c r) as [g|] eqn:Q2.
  { intros [<-|H] Hx; right;
      [eapply quoted_group_In | eapply IH]; eassumption. }
  destruct (Char.isspace c).
  - intros H Hx. right. eapply IH; eassumption.
  - intros [<-|H] Hx.
    + destruct Hx as [Hx|Hx]; [left; exact Hx | right].
      apply nonspace_run_In. exact Hx.
    + right. eapply IH; eassumption.
Qed.

Lemma quoted_group_blank (q c : ascii) (r : text) :
  is_quote q -> Char.isspace c = true -> quoted_group q c r = None.
Proof.
  intros Hq Hc. unfold quoted_group.
  destruct (Char.eqb c q) eqn:E; [|reflexivity].
  apply eqb_eq in E. subst. rewrite (quote_solid _ Hq) in Hc. discriminate.
Qed.

(** Whitespace is a separator and makes no token. *)
Lemma finditer_blank_head (c : ascii) (r : text) :
  Char.isspace c = true ->
  finditer_tokens 0 (c :: r) = finditer_tokens 0 r.
Proof.
  intros Hc. simpl.
  rewrite !quoted_group_blank, Hc by (unfold is_quote; auto). reflexivity.
Qed.

Lemma finditer_blank_app (ws s : text) :
  blank ws -> finditer_tokens 0 (ws ++ s) = finditer_tokens 0 s.
Proof.
  induction 1 as [|c ws Hc _ IH]; [reflexivity|].
  simpl app. rewrite finditer_blank_head by assumption. exact IH.
Qed.

Lemma finditer_blank (ws : text) (k : nat) :
  blank ws -> finditer_tokens k ws = [].
Proof.
  intros B. revert k. induction B as [|c ws Hc _ IH]; intros k; [reflexivity|].
  destruct k as [|k]; [|apply IH].
  rewrite finditer_blank_head by assumption. apply IH.
Qed.

Lemma blank_absent (q : ascii) (ws : text) :
  Char.isspace q = false -> blank ws -> ~ In q ws.
Proof.
  intros Hq B Hin. unfold blank in B. rewrite List.Forall_forall in B.
  apply B in Hin. congruence.
Qed.

Lemma quoted_group_trail (q c : ascii) (r ws : text) :
  is_quote q -> blank ws ->
  quoted_group q c (r ++ ws) = quoted_group q c r.
Proof.
  intros Hq B. unfold quoted_group. destruct (Char.eqb c q); [|reflexivity].
  destruct (Str.index q r) as [n|] eqn:E.
  - apply index_Some in E as (E1 & E2 & E3).
    rewrite E1 at 1. rewrite <- app_assoc. simpl.
    rewrite index_app_first by assumption.
    rewrite length_firstn, Nat.min_l by lia. simpl. f_equal.
    rewrite firstn_app. replace (n - length r) with 0 by lia.
    simpl. apply app_nil_r.
  - apply index_None in E.
    rewrite index_app_None by assumption.
    assert (N : Str.index q ws = None).
    { apply index_None. apply blank_absent; [apply quote_solid|]; assumption. }
    rewrite N. reflexivity.
Qed.

Lemma nonspace_run_trail (r ws : text) :
  blank ws -> Str.nonspace_run (r ++ ws) = Str.nonspace_run r.
Proof.
  intros B. induction r as [|c r IH]; simpl.
  - destruct B as [|d ws Hd _]; [reflexivity|]. simpl. rewrite Hd. reflexivity.
  - destruct (Char.isspace c); [reflexivity | f_equal; exact IH].
Qed.

(** Whitespace at the end changes no token. *)
Lemma finditer_trail (s ws : text) (k : nat) :
  blank ws -> finditer_tokens k (s ++ ws) = finditer_tokens k s.
Proof.
  intros B. revert k. induction s as [|c r IH]; intros k.
  - simpl. rewrite finditer_blank by assumption. destruct k; reflexivity.
  - simpl. destruct k as [|k]; [|apply IH].
    rewrite !quoted_group_trail by (unfold is_quote; auto).
    rewrite nonspace_run_trail by assumption.
    destruct (quoted_group SQUOTE c r); [rewrite IH; reflexivity|].
    destruct (quoted_group DQUOTE c r); [rewrite IH; reflexivity|].
    rewrite !IH. reflexivity.
Qed.

(** Trimming first, as [tokenize] does, changes no token. *)
Lemma tokenize_unstripped (s : text) : tokenize s = finditer_tokens 0 s.
Proof.
  unfold tokenize, Str.strip.
  destruct (lstrip_split s) as (w1 & B1 & E1).
  destruct (rstrip_split (Str.lstrip s)) as (w2 & B2 & E2).
  rewrite E1 at 2. rewrite finditer_blank_app by assumption.
  rewrite E2 at 2. rewrite finditer_trail by assumption. reflexivity.
Qed.

Lemma tokenize_chars (s tok : text) (x : ascii) :
  In tok (tokenize s) -> In x tok -> In x s.
Proof. rewrite tokenize_unstripped. apply finditer_chars. Qed.

(** A quoted span is one token: what lies between the quotes. *)
Lemma finditer_quoted (q : ascii) (body rest : text) :
  is_quote q -> ~ In q body ->
  finditer_tokens 0 (q :: body ++ q :: rest) = body :: finditer_tokens 0 rest.
Proof.
  intros Hq Hb.
  assert (G : quoted_group q q (body ++ q :: rest) = Some body).
  { unfold quoted_group. rewrite eqb_refl, index_app_first by assumption.
    simpl. f_equal. rewrite firstn_app, Nat.sub_diag, firstn_all. simpl.
    apply app_nil_r. }
  assert (K : finditer_tokens (S (length body)) (body ++ q :: rest)
              = finditer_tokens 0 rest).
  { replace (S (length body)) with (length (body ++ [q]))
      by (rewrite length_app; simpl; lia).
    replace (body ++ q :: rest) with ((body ++ [q]) ++ rest)
      by (rewrite <- app_assoc; reflexivity).
    apply finditer_skip0. }
  simpl. destruct Hq as [-> | ->].
  - rewrite G, K. reflexivity.
  - replace (quoted_group SQUOTE DQUOTE (body ++ DQUOTE :: rest)) with (@None text)
      by reflexivity.
    rewrite G, K. reflexivity.
Qed.

Lemma nonspace_run_app (s rest : text) :
  solid s -> run_end rest -> Str.nonspace_run (s ++ rest) = s.
Proof.
  intros Hs Hr. induction Hs as [|c s Hc _ IH]; simpl.
  - destruct rest as [|d rest]; [reflexivity|]. simpl in *. rewrite Hr.
    reflexivity.
  - rewrite Hc. f_equal. exact IH.
Qed.

(** A bare run is one token. *)
Lemma finditer_bare (c : ascii) (s rest : text) :
  c <> SQUOTE -> c <> DQUOTE -> solid (c :: s) -> run_end rest ->
  finditer_tokens 0 (c :: s ++ rest) = (c :: s) :: finditer_tokens 0 rest.
Proof.
  intros H1 H2 Hs Hr. inversion Hs as [|? ? Hc Hs']; subst. simpl.
  unfold quoted_group.
  apply eqb_neq in H1, H2. rewrite H1, H2, Hc.
  rewrite nonspace_run_app by assumption.
  rewrite finditer_skip0. reflexivity.
Qed.

End TokenFacts.

(* ------------------------------------------------------------------ *)
(** ** FASTA headers *)

Module FastaFacts.
Import StrFacts StripFacts FastaSpec.

Lemma drop_while_lstrip (s : text) : drop_while Char.isspace s = Str.lstrip s.
Proof.
  induction s as [|c r IH]; simpl; [reflexivity|].
  destruct (Char.isspace c); [exact IH | reflexivity].
Qed.

Lemma take_while_run (s : text) :
  take_while (fun c => negb (Char.isspace c)) s = Str.nonspace_run s.
Proof.
  induction s as [|c r IH]; simpl; [reflexivity|].
  destruct (Char.isspace c); simpl; [reflexivity | f_equal; exact IH].
Qed.

(** One turn of the loop of [parse_fasta_taxa], against the rule. *)
Lemma fasta_loop_step (line : text) (rest : list text) (taxa : gset text) :
  fasta_loop (line :: rest) taxa =
  match header_label line with
  | Some l => fasta_loop rest (taxa ∪ {[ l ]})
  | None => fasta_loop rest taxa
  end.
Proof.
  simpl. destruct line as [|c after]; [reflexivity|].
  simpl. rewrite eqb_sym. destruct (Char.eqb c ">"); simpl; [|reflexivity].
  unfold first_token. rewrite drop_while_lstrip.
  change (drop 0 after) with after.
  destruct (strip_cases after) as [[E1 E2] | (d & r & E1 & Hd & E2)];
    rewrite E1, E2; [reflexivity|].
  unfold Str.split. simpl Str.split_go. rewrite Hd.
  rewrite take_while_run. simpl. rewrite Hd.
  rewrite nonspace_run_rstrip_rec. reflexivity.
Qed.

Lemma fasta_loop_spec (lines : list text) (taxa : gset text) :
  fasta_loop lines taxa = Ok (taxa ∪ list_to_set (omap header_label lines)).
Proof.
  revert taxa. induction lines as [|line rest IH]; intros taxa.
  - simpl. f_equal. symmetry. apply (right_id_L ∅ (∪)).
  - rewrite fasta_loop_step. simpl omap.
    destruct (header_label line) as [l|]; rewrite IH; [|reflexivity].
    simpl. f_equal. symmetry. apply (assoc_L (∪)).
Qed.

Lemma parse_fasta_text_spec (t : text) :
  parse_fasta_text t = Ok (fasta_labels t).
Proof.
  unfold parse_fasta_text, fasta_labels. rewrite fasta_loop_spec.
  f_equal. apply (left_id_L ∅ (∪)).
Qed.

(** A header label is a non-empty run without whitespace. *)
Lemma header_label_solid (line l : text) :
  header_label line = Some l -> solid l /\ l <> [].
Proof.
  destruct line as [|c after]; simpl; [discriminate|].
  destruct (Char.eqb c ">"); [|discriminate].
  unfold first_token. rewrite drop_while_lstrip.
  destruct (lstrip_result after) as [E | (d & r & E & Hd)]; rewrite E;
    [discriminate|].
  intros H.
  assert (l = Str.nonspace_run (d :: r)) as ->
    by (rewrite <- take_while_run; congruence).
  split.
  - apply nonspace_run_solid.
  - simpl. rewrite Hd. discriminate.
Qed.

Lemma fasta_labels_solid (t l : text) :
  l ∈ fasta_labels t -> solid l /\ l <> [].
Proof.
  unfold fasta_labels. rewrite elem_of_list_to_set, list_elem_of_omap.
  intros (line & _ & H). eapply header_label_solid. eassumption.
Qed.

End FastaFacts.

(** C5: for every FASTA text the extractor succeeds with exactly the set
    of the first whitespace-delimited tokens after the marker of the lines
    that begin with it, headers with nothing after the marker skipped and
    repeated labels collapsed; the headers taxA desc, taxB, taxA dup give
    exactly taxA and taxB. *)
Theorem parse_fasta_exact :
  (forall t : text, parse_fasta_text t = Ok (FastaSpec.fasta_labels t)) /\
  parse_fasta_text scenario_A = Ok {[ str "taxA"; str "taxB" ]}.
Proof.
  split; [apply FastaFacts.parse_fasta_text_spec|].
  vm_compute. reflexivity.
Qed.

(* ------------------------------------------------------------------ *)
(** ** Labels of the NEXUS extractor *)

Module NexusFacts.
Import StrFacts StripFacts TokenFacts.

Lemma splitlines_go_chars (n : nat) :
  forall s cur line x,
    length s <= n ->
    In line (Str.splitlines_go cur s) -> In x line -> In x cur \/ In x s.
Proof.
  induction n as [|n IH]; intros s cur line x L.
  - destruct s; [|simpl in L; lia]. simpl.
    destruct cur; [tauto|]. intros [<-|[]] Hx. left. apply in_rev. exact Hx.
  - destruct s as [|c r].
    + simpl. destruct cur; [tauto|]. intros [<-|[]] Hx. left.
      apply in_rev. exact Hx.
    + simpl in L. simpl.
      destruct (Char.eqb c CR).
      * intros [<-|H] Hx; [left; apply in_rev; exact Hx|]. right. right.
        destruct r as [|d r']; [destruct H|].
        destruct (Char.eqb d LF).
        -- apply (IH r' [] line x) in H; [|simpl in L; lia | exact Hx].
           destruct H as [[]|H]. right. exact H.
        -- apply (IH (d :: r') [] line x) in H; [|lia | exact Hx].
           destruct H as [[]|H]. exact H.
      * destruct (Char.islinebreak c).
        -- intros [<-|H] Hx; [left; apply in_rev; exact Hx|]. right. right.
           apply (IH r [] line x) in H; [|lia | exact Hx].
           destruct H as [[]|H]. exact H.
        -- intros H Hx. apply (IH r (c :: cur) line x) in H; [|lia | exact Hx].
           destruct H as [[H|H]|H]; [right; left; exact H | left; exact H
                                     | right; right; exact H].
Qed.

Lemma splitlines_chars (s line : text) (x : ascii) :
  In line (Str.splitlines s) -> In x line -> In x s.
Proof.
  intros H Hx. unfold Str.splitlines in H.
  apply (splitlines_go_chars (length s) s [] line x) in H; [|lia | exact Hx].
  destruct H as [[]|H]. exact H.
Qed.

Lemma matrix_rows_chars (lines : list text) (tok : text) (x : ascii) :
  In tok (matrix_rows lines) -> In x tok ->
  exists raw, In raw lines /\ In x raw.
Proof.
  induction lines as [|raw rest IH]; simpl; [tauto|].
  assert (K : In tok (matrix_rows rest) -> In x tok ->
              exists raw0, (raw = raw0 \/ In raw0 rest) /\ In x raw0).
  { intros H Hx. destruct (IH H Hx) as (r0 & H1 & H2). exists r0. tauto. }
  destruct (Str.strip raw) as [|a l] eqn:E; [exact K|].
  destruct (skipped_line (a :: l)); [exact K|].
  destruct (tokenize (a :: l)) as [|tok0 more] eqn:T; [exact K|].
  intros [<-|H] Hx; [|apply K; assumption].
  exists raw. split; [left; reflexivity|].
  apply strip_In. rewrite E. apply (tokenize_chars _ tok0).
  - rewrite T. left. reflexivity.
  - exact Hx.
Qed.

Lemma sub_taxlabels_prefix_In (x : ascii) (s : text) :
  In x (sub_taxlabels_prefix s) -> In x s.
Proof.
  unfold sub_taxlabels_prefix.
  destruct (Str.startswith _ _); [apply skipn_In | tauto].
Qed.

(** The block is cut before its first semicolon: no token holds one. *)
Lemma taxlabels_no_semicolon (t tok : text) :
  In tok (parse_taxlabels_block t) -> ~ In ";"%char tok.
Proof.
  unfold parse_taxlabels_block.
  destruct (Str.find _ _) as [idx|]; [|intros []].
  destruct (Str.index ";" (skipn idx t)) as [semi|] eqn:E; [|intros []].
  apply index_Some in E as (_ & E & _).
  intros H Hx. apply E.
  apply sub_taxlabels_prefix_In, strip_In.
  eapply tokenize_chars; eassumption.
Qed.

Lemma matrix_no_semicolon (t tok : text) :
  In tok (parse_matrix_block t) -> ~ In ";"%char tok.
Proof.
  unfold parse_matrix_block.
  destruct (Str.find _ _) as [midx|]; [|intros []].
  set (sub := skipn _ t). intros H Hx.
  destruct (matrix_rows_chars _ _ _ H Hx) as (raw & H1 & H2).
  pose proof (splitlines_chars _ _ _ H1 H2) as H3.
  destruct (Str.index ";" sub) as [semi|] eqn:E.
  - apply index_Some in E as (_ & E & _). auto.
  - apply index_None in E. auto.
Qed.

Lemma elem_of_cleaned (taxa : gset text) (l : text) :
  l ∈ cleaned taxa <->
  exists l0, l0 ∈ taxa /\ Str.strip l0 <> [] /\ l = clean_label l0.
Proof.
  unfold cleaned. rewrite elem_of_map. split.
  - intros (l0 & -> & H). apply elem_of_filter in H as [H1 H2].
    exists l0. auto.
  - intros (l0 & H1 & H2 & ->). exists l0. split; [reflexivity|].
    apply elem_of_filter. auto.
Qed.

Lemma clean_label_ok (l0 : text) :
  ~ In ";"%char l0 -> Str.strip l0 <> [] ->
  label_clean (clean_label l0) /\ ~ In ";"%char (clean_label l0).
Proof.
  intros H1 H2. unfold clean_label.
  assert (N : ~ In ";"%char (Str.strip l0))
    by (intros F; apply H1, strip_In, F).
  rewrite rstrip_char_absent by exact N.
  repeat split; [apply strip_idem | exact H2 | | exact N].
  apply rstrip_char_absent, N.
Qed.

Lemma parse_nexus_with_clean (step : text -> list text) (raw l : text) :
  (forall t tok, In tok (step t) -> ~ In ";"%char tok) ->
  l ∈ parse_nexus_with step raw -> label_clean l /\ ~ In ";"%char l.
Proof.
  intros Hstep.
  destruct (parse_nexus_with_cases raw step) as [C1 C2].
  destruct (parse_taxlabels_block (strip_nexus_comments raw)) as [|a ls] eqn:E.
  - rewrite (C2 eq_refl). rewrite elem_of_cleaned.
    intros (l0 & H1 & H2 & ->). apply clean_label_ok; [|exact H2].
    apply elem_of_list_to_set, list_elem_of_In in H1. eapply Hstep, H1.
  - rewrite C1 by discriminate. rewrite elem_of_cleaned.
    intros (l0 & H1 & H2 & ->). apply clean_label_ok; [|exact H2].
    apply elem_of_list_to_set, list_elem_of_In in H1.
    apply (taxlabels_no_semicolon (strip_nexus_comments raw)).
    rewrite E. exact H1.
Qed.

Lemma parse_nexus_text_clean (raw l : text) :
  l ∈ parse_nexus_text raw -> label_clean l /\ ~ In ";"%char l.
Proof. apply parse_nexus_with_clean. apply matrix_no_semicolon. Qed.

Lemma parse_nexus_taxa_inv (f : File) (taxa : gset text) :
  parse_nexus_taxa f = Ok taxa ->
  exists s, content f = Some s /\ taxa = parse_nexus_text (universal_newlines s).
Proof.
  unfold parse_nexus_taxa, read_text. destruct (content f) as [s|];
    [|discriminate].
  intros [= <-]. exists s. split; reflexivity.
Qed.

Lemma parse_fasta_taxa_inv (f : File) (taxa : gset text) :
  parse_fasta_taxa f = Ok taxa ->
  exists s, content f = Some s /\ taxa = FastaSpec.fasta_labels s.
Proof.
  unfold parse_fasta_taxa. destruct (content f) as [s|]; [|discriminate].
  rewrite FastaFacts.parse_fasta_text_spec. intros [= <-].
  exists s. split; reflexivity.
Qed.

Lemma solid_trimmed (l : text) : solid l -> l <> [] -> trimmed l.
Proof. intros H N. split; [apply strip_solid, H | exact N]. Qed.

End NexusFacts.

(* ------------------------------------------------------------------ *)
(** ** The aggregator *)

Module GatherFacts.

Lemma scan_file_result (p : File) (strict verbose : bool) :
  snd (scan_file p strict verbose) =
  match extract p with
  | Some (Ok ts) => Ok (Some ts)
  | Some (Raise e) => Raise e
  | None => if strict then Raise (ValueError (path p)) else Ok None
  end.
Proof.
  unfold scan_file, extract.
  destruct (detect_format_from_content p); simpl.
  - destruct (parse_fasta_taxa p); reflexivity.
  - destruct (parse_nexus_taxa p); reflexivity.
  - reflexivity.
Qed.

Lemma scan_file_raise_log (p : File) (strict verbose : bool) (e : exn) :
  extract p = Some (Raise e) -> scan_file p strict verbose = ([], Raise e).
Proof.
  unfold scan_file, extract.
  destruct (detect_format_from_content p); simpl.
  - destruct (parse_fasta_taxa p); intros [= <-]; reflexivity.
  - destruct (parse_nexus_taxa p); intros [= <-]; reflexivity.
  - discriminate.
Qed.

(** One turn of the loop, on the result alone. *)
Lemma gather_loop_cons (p : File) (rest : list File) (strict verbose : bool)
    (taxa : gset text) :
  snd (gather_loop (p :: rest) strict verbose taxa) =
  match snd (scan_file p strict verbose) with
  | Ok (Some ts) => snd (gather_loop rest strict verbose (taxa ∪ ts))
  | Ok None => snd (gather_loop rest strict verbose taxa)
  | Raise e => if strict then Raise e
               else snd (gather_loop rest strict verbose taxa)
  end.
Proof.
  simpl. destruct (scan_file p strict verbose) as [log [[ts|]|e]]; simpl.
  - destruct (gather_loop rest strict verbose (taxa ∪ ts)). reflexivity.
  - destruct (gather_loop rest strict verbose taxa). reflexivity.
  - destruct strict; [reflexivity|].
    destruct (gather_loop rest false verbose taxa). reflexivity.
Qed.

(** The files after a prefix that went through are scanned from the set
    the prefix left, and their diagnostics follow those of the prefix. *)
Lemma gather_loop_app (l1 l2 : list File) (strict verbose : bool) :
  forall (taxa taxa1 : gset text) (log1 : list Diag),
    gather_loop l1 strict verbose taxa = (log1, Ok taxa1) ->
    gather_loop (l1 ++ l2) strict verbose taxa =
    (log1 ++ fst (gather_loop l2 strict verbose taxa1),
     snd (gather_loop l2 strict verbose taxa1)).
Proof.
  induction l1 as [|p l1 IH]; intros taxa taxa1 log1.
  - simpl. intros [= <- <-]. destruct (gather_loop l2 _ _ _). reflexivity.
  - simpl. destruct (scan_file p strict verbose) as [log [[ts|]|e]].
    + destruct (gather_loop l1 strict verbose (taxa ∪ ts)) as [lg r] eqn:G.
      intros [= <- ->]. rewrite (IH _ _ _ G). rewrite app_assoc. reflexivity.
    + destruct (gather_loop l1 strict verbose taxa) as [lg r] eqn:G.
      intros [= <- ->]. rewrite (IH _ _ _ G). rewrite app_assoc. reflexivity.
    + destruct strict; [discriminate|].
      destruct (gather_loop l1 false verbose taxa) as [lg r] eqn:G.
      intros [= <- ->]. rewrite (IH _ _ _ G).
      rewrite <- app_assoc. reflexivity.
Qed.

(** Without [strict] the scan always ends with a set: the union of what
    the files that could be extracted contribute. *)
Lemma gather_loop_lax (paths : list File) (verbose : bool) (taxa : gset text) :
  snd (gather_loop paths false verbose taxa)
  = Ok (taxa ∪ ⋃ (labels_of <$> paths)).
Proof.
  revert taxa. induction paths as [|p rest IH]; intros taxa.
  - simpl. f_equal. symmetry. apply (right_id_L ∅ (∪)).
  - rewrite gather_loop_cons, scan_file_result, fmap_cons.
    change (⋃ (labels_of p :: (labels_of <$> rest)))
      with (labels_of p ∪ ⋃ (labels_of <$> rest)).
    unfold labels_of at 1.
    destruct (extract p) as [[ts|e]|]; rewrite IH; f_equal.
    + symmetry. apply (assoc_L (∪)).
    + rewrite (left_id_L ∅ (∪)). reflexivity.
    + rewrite (left_id_L ∅ (∪)). reflexivity.
Qed.

(** A property of all extracted labels is a property of the final set. *)
Lemma gather_loop_all (P : text -> Prop) :
  (forall p ts l, extract p = Some (Ok ts) -> l ∈ ts -> P l) ->
  forall paths strict verbose taxa taxa',
    snd (gather_loop paths strict verbose taxa) = Ok taxa' ->
    (forall l, l ∈ taxa -> P l) -> forall l, l ∈ taxa' -> P l.
Proof.
  intros HP paths strict verbose.
  induction paths as [|p rest IH]; intros taxa taxa'.
  - simpl. intros [= <-]. auto.
  - rewrite gather_loop_cons, scan_file_result.
    destruct (extract p) as [[ts|e]|] eqn:E.
    + intros G Ht. apply (IH _ _ G). intros l Hl.
      apply elem_of_union in Hl as [Hl|Hl]; [auto | eapply HP; eauto].
    + destruct strict; [discriminate|]. apply IH.
    + destruct strict; [discriminate|]. apply IH.
Qed.

End GatherFacts.

(** C7: when the extraction of one file raises, the scan without [strict]
    warns, skips the file and ends with the union of what the other files
    contribute; with [strict] the exception leaves the scan at that file,
    and no later file is looked at. *)
Theorem gather_taxa_exception (l1 l2 : list File) (p : File) (e : exn)
    (verbose : bool) (Hraise : extract p = Some (Raise e)) :
  (snd (gather_taxa (l1 ++ p :: l2) false verbose)
     = Ok (⋃ (labels_of <$> (l1 ++ l2))) /\
   snd (gather_taxa (l1 ++ p :: l2) false verbose)
     = snd (gather_taxa (l1 ++ l2) false verbose) /\
   In (Warned (path p) e) (fst (gather_taxa (l1 ++ p :: l2) false verbose))) /\
  (forall log1 taxa1,
     gather_taxa l1 true verbose = (log1, Ok taxa1) ->
     gather_taxa (l1 ++ p :: l2) true verbose = (log1, Raise e)).
Proof.
  unfold gather_taxa. split; [split; [|split]|].
  - rewrite !GatherFacts.gather_loop_lax. f_equal.
    rewrite !(left_id_L ∅ (∪)), !fmap_app, !union_list_app_L, fmap_cons.
    change (⋃ (labels_of p :: (labels_of <$> l2)))
      with (labels_of p ∪ ⋃ (labels_of <$> l2)).
    unfold labels_of at 2. rewrite Hraise, !(left_id_L ∅ (∪)). reflexivity.
  - rewrite !GatherFacts.gather_loop_lax. f_equal.
    rewrite !fmap_app, !union_list_app_L, fmap_cons.
    change (⋃ (labels_of p :: (labels_of <$> l2)))
      with (labels_of p ∪ ⋃ (labels_of <$> l2)).
    unfold labels_of at 2. rewrite Hraise, !(left_id_L ∅ (∪)). reflexivity.
  - destruct (gather_loop l1 false verbose ∅) as [log1 r1] eqn:G.
    pose proof (GatherFacts.gather_loop_lax l1 verbose ∅) as L.
    rewrite G in L. simpl in L. subst r1.
    rewrite (GatherFacts.gather_loop_app _ (p :: l2) _ _ _ _ _ G). simpl.
    rewrite (GatherFacts.scan_file_raise_log _ _ _ _ Hraise).
    destruct (gather_loop l2 false verbose _). simpl.
    apply in_or_app. right. left. reflexivity.
  - intros log1 taxa1 G.
    rewrite (GatherFacts.gather_loop_app _ (p :: l2) _ _ _ _ _ G). simpl.
    rewrite (GatherFacts.scan_file_raise_log _ _ _ _ Hraise). simpl.
    rewrite app_nil_r. reflexivity.
Qed.

Lemma gather_taxa_exception_witness :
  snd (gather_taxa [sample_fasta; sample_unreadable; sample_nexus] false false)
    = Ok (⋃ (labels_of <$> [sample_fasta; sample_nexus])) /\
  gather_taxa [sample_fasta; sample_unreadable; sample_nexus] true false
    = ([], Raise (OSError (str "b.nex"))).
Proof.
  destruct (gather_taxa_exception [sample_fasta] [sample_nexus]
              sample_unreadable (OSError (str "b.nex")) false eq_refl)
    as [(H1 & _ & _) H2].
  split; [exact H1|]. eapply H2. vm_compute. reflexivity.
Defined.

(* ------------------------------------------------------------------ *)
(** ** Clean labels *)

Lemma semicolon_fasta_labels :
  parse_fasta_taxa semicolon_fasta = Ok {[ str "taxA;" ]}.
Proof. vm_compute. reflexivity. Qed.

(** C2, refuted as stated: the FASTA extractor keeps a semicolon that ends
    the first token of a header. *)
Lemma fasta_label_keeps_semicolon :
  ~ (forall f taxa l,
       parse_nexus_taxa f = Ok taxa \/ parse_fasta_taxa f = Ok taxa ->
       l ∈ taxa -> label_clean l).
Proof.
  intros H.
  destruct (H semicolon_fasta {[ str "taxA;" ]} (str "taxA;")) as [_ F].
  - right. exact semicolon_fasta_labels.
  - apply elem_of_singleton. reflexivity.
  - vm_compute in F. discriminate F.
Qed.

(** C2, amended: every label of the NEXUS extractor is trimmed, not empty
    and free of semicolons; every label of the FASTA extractor is not
    empty and free of whitespace; so every label of the final set is
    trimmed and not empty. *)
Theorem extracted_labels_clean :
  (forall f taxa l,
     parse_nexus_taxa f = Ok taxa -> l ∈ taxa ->
     label_clean l /\ ~ In ";"%char l) /\
  (forall f taxa l,
     parse_fasta_taxa f = Ok taxa -> l ∈ taxa ->
     solid l /\ trimmed l) /\
  (forall paths strict verbose log taxa l,
     gather_taxa paths strict verbose = (log, Ok taxa) -> l ∈ taxa ->
     trimmed l).
Proof.
  assert (N : forall f taxa l,
             parse_nexus_taxa f = Ok taxa -> l ∈ taxa ->
             label_clean l /\ ~ In ";"%char l).
  { intros f taxa l H Hl.
    apply NexusFacts.parse_nexus_taxa_inv in H as (s & _ & ->).
    eapply NexusFacts.parse_nexus_text_clean, Hl. }
  assert (F : forall f taxa l,
             parse_fasta_taxa f = Ok taxa -> l ∈ taxa ->
             solid l /\ trimmed l).
  { intros f taxa l H Hl.
    apply NexusFacts.parse_fasta_taxa_inv in H as (s & _ & ->).
    apply FastaFacts.fasta_labels_solid in Hl as [H1 H2].
    split; [exact H1 | apply NexusFacts.solid_trimmed; assumption]. }
  split; [exact N | split; [exact F|]].
  intros paths strict verbose log taxa l G Hl.
  unfold gather_taxa in G.
  refine (GatherFacts.gather_loop_all trimmed _
            paths strict verbose ∅ taxa _ _ l Hl).
  - intros p ts l0. unfold extract.
    destruct (detect_format_from_content p); [| |discriminate].
    + intros [= E] H0. apply (F _ _ _ E H0).
    + intros [= E] H0. apply (N _ _ _ E H0).
  - rewrite G. reflexivity.
  - intros l0 H0. exfalso. exact (not_elem_of_empty (C := gset text) l0 H0).
Qed.

Lemma extracted_labels_clean_witness :
  label_clean (str "t1") /\
  trimmed (str "taxA;") /\
  trimmed (str "taxB").
Proof.
  destruct extracted_labels_clean as (N & F & G).
  split; [|split].
  - refine (proj1 (N sample_nexus {[ str "t1"; str "t2" ]} (str "t1") _ _)).
    + vm_compute. reflexivity.
    + apply elem_of_union. left. apply elem_of_singleton. reflexivity.
  - refine (proj2 (F semicolon_fasta {[ str "taxA;" ]} (str "taxA;") _ _)).
    + vm_compute. reflexivity.
    + apply elem_of_singleton. reflexivity.
  - refine (G [sample_fasta; sample_unreadable] false false
              [Warned (str "b.nex") (OSError (str "b.nex"))]
              {[ str "taxA"; str "taxB" ]} (str "taxB") _ _).
    + vm_compute. reflexivity.
    + apply elem_of_union. right. apply elem_of_singleton. reflexivity.
Defined.

(* ------------------------------------------------------------------ *)
(** ** TAXLABELS blocks with mixed quoting *)

Module TaxlabelsFacts.
Import StrFacts StripFacts TokenFacts FindFacts NexusFacts Taxlabels.

Lemma contains_In (c : ascii) (s : text) : Str.contains c s = true <-> In c s.
Proof.
  unfold Str.contains. rewrite existsb_exists. split.
  - intros (x & H & E). apply eqb_eq in E. subst. exact H.
  - intros H. exists c. split; [exact H | apply eqb_refl].
Qed.

Lemma absent_In (c : ascii) (s : text) : absent c s = true -> ~ In c s.
Proof.
  unfold absent. intros H F. apply contains_In in F. rewrite F in H.
  discriminate.
Qed.

Lemma blankb_blank (s : text) : blankb s = true -> blank s.
Proof.
  unfold blankb, blank. rewrite forallb_forall, List.Forall_forall. auto.
Qed.

Lemma solidb_solid (s : text) : solidb s = true -> solid s.
Proof.
  unfold solidb, solid. rewrite forallb_forall, List.Forall_forall.
  intros H x Hx. apply H in Hx. apply negb_true_iff. exact Hx.
Qed.

Lemma is_quoteb_quote (q : ascii) : is_quoteb q = true -> is_quote q.
Proof.
  unfold is_quoteb, is_quote. intros H. apply orb_true_iff in H.
  rewrite !eqb_eq in H. exact H.
Qed.

Lemma text_eqb_eq (a b : text) : text_eqb a b = true -> a = b.
Proof. unfold text_eqb. apply bool_decide_eq_true. Qed.

Lemma trimmedb_trimmed (s : text) : trimmedb s = true -> trimmed s.
Proof.
  unfold trimmedb, trimmed. intros H. apply andb_true_iff in H as [H1 H2].
  split; [apply text_eqb_eq, H1|]. destruct s; [discriminate | discriminate].
Qed.

(** Turns a conjunction of tests into its parts. *)
Ltac andb_props H := rewrite ?andb_true_iff in H.

(** A valid name, followed by whitespace or by the end, is one token:
    the name without its quotes. *)
Lemma valid_name_tokens (n : Name) (rest : text) :
  valid_name n = true -> run_end rest ->
  finditer_tokens 0 (render n ++ rest)
  = name_text n :: finditer_tokens 0 rest.
Proof.
  unfold valid_name. intros H Hr. apply andb_true_iff in H as [_ H].
  destruct n as [s|q s]; simpl.
  - apply andb_true_iff in H as [H1 H2]. apply solidb_solid in H1.
    destruct s as [|c s]; [discriminate|].
    apply negb_true_iff in H2. unfold is_quoteb in H2.
    apply orb_false_iff in H2 as [Q1 Q2]. apply eqb_neq in Q1, Q2.
    simpl app. apply finditer_bare; assumption.
  - apply andb_true_iff in H as [H H3]. apply andb_true_iff in H as [H1 H2].
    rewrite <- app_assoc. simpl app.
    apply finditer_quoted; [apply is_quoteb_quote, H1 | apply absent_In, H2].
Qed.

Lemma valid_name_plain (n : Name) (c : ascii) :
  Char.isspace c = false -> is_quoteb c = false ->
  absent c (name_text n) = true -> valid_name n = true -> ~ In c (render n).
Proof.
  intros Hs Hc Ha H. apply absent_In in Ha.
  destruct n as [s|q s]; simpl in *; [exact Ha|].
  unfold valid_name in H. andb_props H. destruct H as (_ & (Hq & _) & _).
  assert (c <> q) by (intros ->; congruence).
  intros [F|F]; [congruence|]. apply in_app_or in F as [F|[F|[]]]; auto.
Qed.

Lemma block_run_end (items : list (text * Name)) (trail : text) :
  forallb valid_item items = true -> blank trail ->
  run_end (render_block items ++ trail).
Proof.
  intros H B. destruct items as [|[ws n] rest]; simpl.
  - destruct B; simpl; auto.
  - simpl in H. apply andb_true_iff in H as [H _]. unfold valid_item in H.
    simpl in H. andb_props H. destruct H as ((H & N) & _).
    apply blankb_blank in H.
    destruct H as [|c ws Hc _]; [discriminate|]. simpl. exact Hc.
Qed.

(** The tokens of a block are its names, in order. *)
Lemma block_tokens (items : list (text * Name)) (trail : text) :
  forallb valid_item items = true -> blank trail ->
  finditer_tokens 0 (render_block items ++ trail) = names items.
Proof.
  intros H B. induction items as [|[ws n] rest IH]; simpl.
  - apply finditer_blank, B.
  - simpl in H. apply andb_true_iff in H as [H Hrest].
    unfold valid_item in H. simpl in H. andb_props H.
    destruct H as ((H & _) & Hn).
    rewrite <- !app_assoc.
    rewrite finditer_blank_app by (apply blankb_blank, H).
    rewrite valid_name_tokens;
      [| assumption | apply block_run_end; assumption].
    f_equal. apply IH, Hrest.
Qed.

Lemma block_plain (items : list (text * Name)) (trail : text) (c : ascii) :
  Char.isspace c = false -> is_quoteb c = false ->
  (forall n, valid_name n = true -> absent c (name_text n) = true) ->
  forallb valid_item items = true -> blank trail ->
  ~ In c (render_block items ++ trail).
Proof.
  intros Hs Hq Ha H B. induction items as [|[ws n] rest IH]; simpl.
  - apply blank_absent; assumption.
  - simpl in H. apply andb_true_iff in H as [H Hrest].
    unfold valid_item in H. simpl in H. andb_props H.
    destruct H as ((H & _) & Hn).
    rewrite <- !app_assoc. intros F.
    apply in_app_or in F as [F|F].
    + revert F. apply blank_absent; [assumption | apply blankb_blank, H].
    + apply in_app_or in F as [F|F].
      * revert F. apply valid_name_plain; auto.
      * exact (IH Hrest F).
Qed.

Lemma valid_no_semicolon (n : Name) :
  valid_name n = true -> absent ";" (name_text n) = true.
Proof. unfold valid_name. intros H. andb_props H. tauto. Qed.

Lemma valid_no_bracket (n : Name) :
  valid_name n = true -> absent "[" (name_text n) = true.
Proof. unfold valid_name. intros H. andb_props H. tauto. Qed.

(** The keyword in any case has nine letters, none of them special. *)
Lemma keyword_plain (kw : text) (c : ascii) :
  Str.lower kw = str "taxlabels" ->
  Str.contains (Char.lower c) (str "taxlabels") = false ->
  length kw = 9 /\ ~ In c kw.
Proof.
  intros E Hc. split.
  - rewrite <- lower_length, E. reflexivity.
  - intros F. apply (in_map Char.lower) in F. fold (Str.lower kw) in F.
    rewrite E in F. apply contains_In in F. congruence.
Qed.

Lemma names_clean (items : list (text * Name)) (l : text) :
  forallb valid_item items = true -> In l (names items) ->
  trimmed l /\ ~ In ";"%char l.
Proof.
  intros H Hl. unfold names in Hl. apply in_map_iff in Hl as ([ws n] & <- & Hn).
  rewrite forallb_forall in H. apply H in Hn. unfold valid_item in Hn.
  simpl in *. apply andb_true_iff in Hn as [_ Hn].
  split; [|apply absent_In, valid_no_semicolon; assumption].
  unfold valid_name in Hn. apply andb_true_iff in Hn as [_ Hn].
  destruct n as [s|q s]; simpl in *.
  - apply andb_true_iff in Hn as [H1 H2].
    apply solid_trimmed; [apply solidb_solid, H1|].
    destruct s; [discriminate | discriminate].
  - apply andb_true_iff in Hn as [_ H2]. apply trimmedb_trimmed, H2.
Qed.

(** The final clean-up leaves trimmed labels without semicolon as they
    are. *)
Lemma cleaned_id (taxa : gset text) :
  (forall l, l ∈ taxa -> trimmed l /\ ~ In ";"%char l) -> cleaned taxa = taxa.
Proof.
  intros H. apply set_eq. intros l. rewrite elem_of_cleaned. split.
  - intros (l0 & H0 & _ & ->). destruct (H _ H0) as [[T1 T2] T3].
    unfold clean_label. rewrite T1, rstrip_char_absent by exact T3. exact H0.
  - intros H0. destruct (H _ H0) as [[T1 T2] T3]. exists l.
    split; [exact H0|]. split; [rewrite T1; exact T2|].
    unfold clean_label. rewrite T1, rstrip_char_absent by exact T3.
    reflexivity.
Qed.

End TaxlabelsFacts.

Module TaxlabelsMain.
Import StrFacts StripFacts TokenFacts FindFacts NexusFacts Taxlabels
       TaxlabelsFacts.

Section Block.
Variables (pre kw : text) (items : list (text * Name)) (trail post : text).
Hypothesis WF : well_formed pre kw items trail = true.

Let block : text := render_block items ++ trail.

Let pre' : text := strip_nexus_comments pre.

Lemma wf_parts :
  Str.lower kw = str "taxlabels" /\ ~ In "["%char pre' /\
  Str.find (str "taxlabels") (Str.lower pre' ++ str "taxlabel") = None /\
  items <> [] /\ forallb valid_item items = true /\ blank trail.
Proof.
  pose proof WF as H. unfold well_formed in H. andb_props H.
  destruct H as ((((((H1 & H2) & H3) & H4) & H5) & H6) & _).
  repeat split.
  - apply text_eqb_eq, H1.
  - apply absent_In, H2.
  - destruct (Str.find _ _); [discriminate | reflexivity].
  - destruct items; [discriminate | discriminate].
  - exact H5.
  - apply blankb_blank, H6.
Qed.

Lemma wf_aligned : length (Str.lower pre') = length pre'.
Proof.
  pose proof WF as H. unfold well_formed in H. andb_props H.
  destruct H as (_ & H). apply Nat.eqb_eq, H.
Qed.

Lemma block_no_semicolon : ~ In ";"%char (kw ++ block).
Proof.
  destruct wf_parts as (K & _ & _ & _ & V & B). intros F.
  apply in_app_or in F as [F|F].
  - revert F. apply (keyword_plain kw ";" K). reflexivity.
  - revert F. apply block_plain; auto using valid_no_semicolon.
Qed.

Lemma block_no_bracket : ~ In "["%char (kw ++ block).
Proof.
  destruct wf_parts as (K & P & _ & _ & V & B). intros F.
  apply in_app_or in F as [F|F].
  - revert F. apply (keyword_plain kw "[" K). reflexivity.
  - revert F. apply block_plain; auto using valid_no_bracket.
Qed.

(** The comments of the rest of the file do not touch the block. *)
Lemma block_comments :
  strip_nexus_comments (nexus_text pre kw items trail post)
  = pre' ++ (kw ++ block) ++ ";"%char :: strip_nexus_comments post.
Proof.
  destruct wf_parts as (_ & P & _).
  unfold pre', strip_nexus_comments, nexus_text in *.
  rewrite CommentFacts.sub_comment_closed; [| lia | exact P].
  f_equal.
  replace (kw ++ render_block items ++ trail ++ ";"%char :: post)
    with ((kw ++ block) ++ ";"%char :: post)
    by (unfold block; rewrite <- !app_assoc; reflexivity).
  rewrite CommentFacts.sub_comment_app by exact block_no_bracket.
  reflexivity.
Qed.

(** The TAXLABELS step reads exactly the names of the block. *)
Lemma block_labels (rest : text) :
  parse_taxlabels_block (pre' ++ (kw ++ block) ++ ";"%char :: rest)
  = names items.
Proof.
  destruct wf_parts as (K & _ & P & _ & V & B).
  destruct (keyword_plain kw ";" K eq_refl) as [L _].
  unfold parse_taxlabels_block.
  assert (S : Str.startswith (str "taxlabels")
                (Str.lower ((kw ++ block) ++ ";"%char :: rest)) = true).
  { rewrite <- app_assoc, lower_app, K. apply startswith_self_app. }
  rewrite lower_app. rewrite (find_at _ _ _ S).
  - rewrite wf_aligned, skipn_app, Nat.sub_diag, skipn_all. simpl app.
    rewrite skipn_O.
    rewrite (index_app_first _ _ _ block_no_semicolon).
    rewrite firstn_app, Nat.sub_diag, firstn_all. simpl firstn.
    rewrite app_nil_r.
    unfold sub_taxlabels_prefix.
    rewrite lower_app, K, startswith_self_app.
    rewrite skipn_app, L, Nat.sub_diag.
    rewrite <- L at 1. rewrite skipn_all. simpl app. rewrite skipn_O.
    rewrite tokenize_unstripped.
    change (finditer_tokens 0 (Str.strip block)) with (tokenize block).
    rewrite tokenize_unstripped. apply block_tokens; assumption.
  - rewrite <- app_assoc, lower_app, K. exact P.
Qed.

Lemma block_result :
  parse_nexus_text (nexus_text pre kw items trail post)
  = list_to_set (names items).
Proof.
  destruct wf_parts as (_ & _ & _ & N & V & _).
  unfold parse_nexus_text.
  destruct (parse_nexus_with_cases
              (nexus_text pre kw items trail post) parse_matrix_block)
    as [C _].
  rewrite block_comments, block_labels in C.
  rewrite C.
  - apply cleaned_id. intros l Hl.
    apply elem_of_list_to_set, list_elem_of_In in Hl.
    eapply names_clean; eassumption.
  - destruct items; [contradiction | discriminate].
Qed.

End Block.

End TaxlabelsMain.

(** C4, refuted as stated: a quoted name may hold a semicolon, and the
    block is cut at the first semicolon wherever it stands.  The block
    TAXLABELS 'tax;one' taxB; gives one label, the name up to the
    semicolon with its opening quote, and not the two names. *)
Lemma taxlabels_quoted_semicolon :
  ~ (forall (pre kw : text) (items : list (text * Taxlabels.Name))
            (trail post : text),
       Taxlabels.mixed_block pre kw items trail = true ->
       parse_nexus_text (Taxlabels.nexus_text pre kw items trail post)
       = list_to_set (Taxlabels.names items)).
Proof.
  intros H.
  specialize (H [] (str "TAXLABELS")
                [(str " ", Taxlabels.Quoted SQUOTE (str "tax;one"));
                 (str " ", Taxlabels.Bare (str "taxB"))]
                [] [] eq_refl).
  apply (f_equal elements) in H. vm_compute in H. discriminate H.
Qed.

(** C4, amended: for a NEXUS text whose TAXLABELS block, closed by a
    semicolon, mixes bare names with names in single or double quotes,
    where no name holds a semicolon or an opening bracket, a quoted name
    is trimmed and does not hold its own quote, and the text before the
    keyword, its comments closed and removed, does not hold the keyword
    and keeps its places when lowered, the extractor returns exactly the
    set of the names: quotes removed, the whitespace inside quoted names
    kept, duplicates collapsed.  The block
    TAXLABELS 'tax one' taxB taxC; gives tax one, taxB and taxC. *)
Theorem taxlabels_mixed_quotes :
  (forall (pre kw : text) (items : list (text * Taxlabels.Name))
          (trail post : text),
      Taxlabels.well_formed pre kw items trail = true ->
      parse_nexus_text (Taxlabels.nexus_text pre kw items trail post)
      = list_to_set (Taxlabels.names items)) /\
  parse_nexus_text scenario_B = {[ str "tax one"; str "taxB"; str "taxC" ]}.
Proof.
  split.
  - intros pre kw items trail post WF.
    apply TaxlabelsMain.block_result. exact WF.
  - vm_compute. reflexivity.
Qed.

Lemma taxlabels_mixed_quotes_witness :
  parse_nexus_text
    (str "#NEXUS [taxlabels x;] begin taxa; TaxLabels 'tax one' taxB "
       ++ DQUOTE :: str "tax C"
       ++ DQUOTE :: str " taxB ; end; [taxD]")
  = list_to_set [str "tax one"; str "taxB"; str "tax C"; str "taxB"].
Proof.
  apply (proj1 taxlabels_mixed_quotes
           (str "#NEXUS [taxlabels x;] begin taxa; ") (str "TaxLabels")
           [(str " ", Taxlabels.Quoted SQUOTE (str "tax one"));
            (str " ", Taxlabels.Bare (str "taxB"));
            (str " ", Taxlabels.Quoted DQUOTE (str "tax C"));
            (str " ", Taxlabels.Bare (str "taxB"))]
           (str " ") (str " end; [taxD]")).
  vm_compute. reflexivity.
Defined.

(* ------------------------------------------------------------------ *)
(** ** Group resolution *)

(** C8: a taxon that is a key of the table gets the value of the table
    as it is, the empty string included; any other taxon gets itself
    under [species], the string NA under [NA], the empty string under
    [none]. *)
Theorem pick_group_rule (mapping : gmap text text) (t : text) :
  (forall g mode, mapping !! t = Some g -> pick_group mapping mode t = g) /\
  (mapping !! t = None ->
   pick_group mapping (str "species") t = t /\
   pick_group mapping (str "NA") t = str "NA" /\
   pick_group mapping (str "none") t = []).
Proof.
  unfold pick_group. split.
  - intros g mode ->. reflexivity.
  - intros ->. repeat split.
Qed.

Lemma pick_group_rule_witness :
  pick_group {[ str "taxA" := [] ]} (str "NA") (str "taxA") = [] /\
  pick_group {[ str "taxA" := [] ]} (str "species") (str "taxB") = str "taxB" /\
  pick_group {[ str "taxA" := [] ]} (str "NA") (str "taxB") = str "NA" /\
  pick_group {[ str "taxA" := [] ]} (str "none") (str "taxB") = [].
Proof.
  destruct (pick_group_rule {[ str "taxA" := [] ]} (str "taxA")) as [H1 _].
  destruct (pick_group_rule {[ str "taxA" := [] ]} (str "taxB")) as [_ H2].
  split.
  - apply H1. vm_compute. reflexivity.
  - apply H2. vm_compute. reflexivity.
Defined.

(* ------------------------------------------------------------------ *)
(** ** The group table *)

Module GroupFacts.

Lemma groups_loop_cons (ti gi : nat) (r : list text) (rest : list (list text))
    (m : gmap text text) :
  groups_loop ti gi (r :: rest) m =
  groups_loop ti gi rest
    match row_entry ti gi r with
    | Some (t, g) => <[t := g]> m
    | None => m
    end.
Proof.
  simpl. unfold row_entry.
  destruct (length r <=? Nat.max ti gi); [reflexivity|].
  destruct (Str.strip (nth ti r [])); reflexivity.
Qed.

Lemma groups_loop_app (ti gi : nat) (l1 l2 : list (list text))
    (m : gmap text text) :
  groups_loop ti gi (l1 ++ l2) m = groups_loop ti gi l2 (groups_loop ti gi l1 m).
Proof.
  revert m. induction l1 as [|r l1 IH]; intros m; [reflexivity|].
  simpl app. rewrite !groups_loop_cons. apply IH.
Qed.

(** Rows that do not name [t] leave its entry alone. *)
Lemma groups_loop_other (ti gi : nat) (t : text) (rows : list (list text)) :
  Forall (fun r => forall g, row_entry ti gi r <> Some (t, g)) rows ->
  forall m, groups_loop ti gi rows m !! t = m !! t.
Proof.
  induction 1 as [|r rows Hr _ IH]; intros m; [reflexivity|].
  rewrite groups_loop_cons, IH.
  destruct (row_entry ti gi r) as [[t' g']|]; [|reflexivity].
  apply lookup_insert_ne. intros ->. exact (Hr g' eq_refl).
Qed.

Lemma groups_loop_last (ti gi : nat) (pre post : list (list text))
    (r : list text) (t g : text) (m : gmap text text) :
  row_entry ti gi r = Some (t, g) ->
  Forall (fun r' => forall g', row_entry ti gi r' <> Some (t, g')) post ->
  groups_loop ti gi (pre ++ r :: post) m !! t = Some g.
Proof.
  intros Hr Hpost.
  rewrite groups_loop_app, groups_loop_cons, Hr.
  rewrite (groups_loop_other _ _ _ _ Hpost). apply lookup_insert_eq.
Qed.

End GroupFacts.

(** C10: when several data rows of the table name one taxon, the table
    loaded maps the taxon to the group of the last of them. *)
Theorem load_groups_last_row_wins
    (csv_reader : list text -> ascii -> list (list text))
    (f : File) (sample : text) (row0 : list text) (more : list (list text))
    (tax_idx grp_idx start_idx : nat) (pre post : list (list text))
    (r : list text) (t g : text)
    (Hread : read_text f = Ok sample)
    (Hrows : csv_reader (Str.splitlines sample) (detect_delimiter sample)
             = row0 :: more)
    (Hlayout : table_layout row0 = (tax_idx, grp_idx, start_idx))
    (Hdata : skipn start_idx (row0 :: more) = pre ++ r :: post)
    (Hrow : row_entry tax_idx grp_idx r = Some (t, g))
    (Hlast : Forall (fun r' => forall g', row_entry tax_idx grp_idx r' <> Some (t, g'))
                    post) :
  exists mapping,
    load_groups_csv csv_reader f = Ok mapping /\ mapping !! t = Some g.
Proof.
  unfold load_groups_csv. rewrite Hread. cbv zeta. rewrite Hrows.
  eexists. split; [reflexivity|].
  unfold load_groups_rows. rewrite Hlayout, Hdata.
  apply GroupFacts.groups_loop_last; assumption.
Qed.

Lemma load_groups_last_row_wins_witness :
  exists mapping,
    load_groups_csv plain_reader sample_groups = Ok mapping /\
    mapping !! str "taxA" = Some (str "g3").
Proof.
  apply (load_groups_last_row_wins plain_reader sample_groups
           (str "Taxon,Group" ++ [LF] ++ str "taxA, g1" ++ [LF]
              ++ str "taxB,g2" ++ [LF] ++ str "taxA ,g3" ++ [LF]
              ++ str "short" ++ [LF])
           [str "Taxon"; str "Group"]
           [[str "taxA"; str " g1"]; [str "taxB"; str "g2"];
            [str "taxA "; str "g3"]; [str "short"]]
           0 1 1
           [[str "taxA"; str " g1"]; [str "taxB"; str "g2"]]
           [[str "short"]]
           [str "taxA "; str "g3"]).
  - reflexivity.
  - vm_compute. reflexivity.
  - vm_compute. reflexivity.
  - reflexivity.
  - vm_compute. reflexivity.
  - constructor; [|constructor]. intros g' E. vm_compute in E. discriminate E.
Defined.

(* ------------------------------------------------------------------ *)
(** ** Exit statuses *)

Module MainFacts.

Lemma labels_of_unknown (files : list File) :
  (forall f, In f files -> detect_format_from_content f = Unknown) ->
  ⋃ (labels_of <$> files) = (∅ : gset text).
Proof.
  induction files as [|f files IH]; intros H; [reflexivity|].
  rewrite fmap_cons.
  change (⋃ (labels_of f :: (labels_of <$> files)))
    with (labels_of f ∪ ⋃ (labels_of <$> files)).
  rewrite IH by (intros f' Hf'; apply H; right; exact Hf').
  unfold labels_of, extract. rewrite (H f) by (left; reflexivity).
  apply (left_id_L ∅ (∪)).
Qed.

(** Files of unknown format, scanned without [strict], give no taxon. *)
Lemma gather_unknown (files : list File) (verbose : bool) :
  (forall f, In f files -> detect_format_from_content f = Unknown) ->
  snd (gather_taxa files false verbose) = Ok ∅.
Proof.
  intros H. unfold gather_taxa.
  rewrite GatherFacts.gather_loop_lax, (labels_of_unknown _ H).
  rewrite (left_id_L ∅ (∪)). reflexivity.
Qed.

Section Run.
Variable csv_reader : list text -> ascii -> list (list text).
Variables (args : Args) (disk : Disk).
Hypothesis Hdir : is_dir disk = true.

Let run := main csv_reader args disk.

Lemma input_dir_true : input_dir disk = Ok true.
Proof.
  revert Hdir. unfold is_dir. destruct (input_dir disk) as [[|]|e]; congruence.
Qed.

(** The run, by cases on what the patterns and the scan give. *)
Lemma main_cases :
  (exists e, found_files args disk = Raise e
             /\ status run = 1%N /\ written run = []) \/
  (found_files args disk = Ok [] /\ status run = 2%N /\ written run = []) \/
  (exists files, found_files args disk = Ok files /\ files <> [] /\
   ((exists e, snd (gather_taxa files (strict args) (verbose args)) = Raise e
               /\ status run = 1%N /\ written run = []) \/
    (snd (gather_taxa files (strict args) (verbose args)) = Ok ∅
     /\ status run = 3%N /\ written run = []) \/
    (exists taxa, snd (gather_taxa files (strict args) (verbose args)) = Ok taxa
                  /\ taxa <> ∅
                  /\ (status run = 1%N \/
                      (status run = 0%N /\ written run <> []))))).
Proof.
  unfold run, main. rewrite input_dir_true.
  destruct (found_files args disk) as [[|f fs]|e0] eqn:F.
  - right. left. repeat split.
  - right. right. exists (f :: fs). split; [reflexivity|]. split; [discriminate|].
    destruct (gather_taxa (f :: fs) (strict args) (verbose args))
      as [log1 [taxa|e]]; simpl.
    + destruct (decide (taxa = ∅)) as [->|N].
      * right. left. repeat split.
      * right. right. exists taxa. split; [reflexivity|]. split; [exact N|].
        destruct (groups args) as [g|];
          [destruct (load_groups_csv csv_reader g) as [m|e']|];
          try (left; reflexivity);
          (destruct (write disk (out_map args) _); [|left; reflexivity]);
          (destruct (out_taxa args) as [p|];
           [destruct (write disk p _); [|left; reflexivity]|]);
          right; (split; [reflexivity | discriminate]).
    + left. exists e. repeat split.
  - left. exists e0. repeat split.
Qed.

End Run.

End MainFacts.

(** C9: with the input directory in place, the program ends with status
    2 exactly when the patterns are accepted and no file matches them,
    and with status 3 exactly when files were found and the scan gave no
    taxon; the two differ from each other and from the status 0 of
    success, and a run that ends with either leaves no file: it ends
    before the map file is opened.  A folder of unrecognized files
    scanned without [strict] ends with status 3 and nothing written. *)
Theorem exit_statuses (csv_reader : list text -> ascii -> list (list text))
    (args : Args) (disk : Disk) (Hdir : is_dir disk = true) :
  let run := main csv_reader args disk in
  (status run = 2%N <-> found_files args disk = Ok []) /\
  (status run = 3%N <->
   exists files, found_files args disk = Ok files /\ files <> [] /\
     snd (gather_taxa files (strict args) (verbose args)) = Ok ∅) /\
  (status run = 2%N \/ status run = 3%N -> written run = []) /\
  (forall files, found_files args disk = Ok files ->
   files <> [] -> strict args = false ->
   (forall f, In f files -> detect_format_from_content f = Unknown) ->
   status run = 3%N /\ written run = []).
Proof.
  intros run.
  pose proof (MainFacts.main_cases csv_reader args disk Hdir) as C.
  fold run in C.
  assert (U : forall files, strict args = false ->
              (forall f, In f files -> detect_format_from_content f = Unknown) ->
              snd (gather_taxa files (strict args) (verbose args)) = Ok ∅).
  { intros files -> H. apply MainFacts.gather_unknown, H. }
  destruct C as [(e & F & S & W) | [(F & S & W) | (files & F & NE &
     [(e & G & S & W) | [(G & S & W) | (taxa & G & N & [S | [S W]])]])]];
    rewrite ?S, ?W, F;
    (split; [|split; [|split]]).
  all: try (split; [discriminate|]).
  all: try (intros (files' & E & NE' & G'); congruence).
  all: try (intros [D|D]; (reflexivity || discriminate D)).
  all: try (intros files' E; discriminate E).
  all: try (intros files' E NE' St Un; injection E as <-;
            specialize (U files St Un); split; congruence).
  all: try (intros E; congruence).
  all: try (split; [intros _; eauto | reflexivity]).
  all: try (split; [reflexivity | intros _; reflexivity]).
  all: try reflexivity; try discriminate.
Qed.

Lemma exit_statuses_witness :
  status (main plain_reader scenario_E_args scenario_E_disk) = 3%N /\
  written (main plain_reader scenario_E_args scenario_E_disk) = [].
Proof.
  pose proof (exit_statuses plain_reader scenario_E_args scenario_E_disk eq_refl)
    as H.
  cbv zeta in H. destruct H as (_ & _ & _ & H).
  apply (H [unknown_file]).
  - vm_compute. reflexivity.
  - discriminate.
  - reflexivity.
  - intros f Hf. destruct Hf as [<-|[]]. reflexivity.
Defined.

(* ================================================================== *)
(** * Further properties of the code *)

(** ** Comments, tokens and block boundaries *)

Module ScanFacts.
Import StrFacts StripFacts TokenFacts FindFacts.

Lemma contains_false (c : ascii) (s : text) :
  Str.contains c s = false -> ~ In c s.
Proof.
  intros H F. apply TaxlabelsFacts.contains_In in F. congruence.
Qed.

Lemma contains_index_None (c : ascii) (s : text) :
  Str.contains c s = false -> Str.index c s = None.
Proof. intros H. apply index_None, contains_false, H. Qed.

(** The substitution resumes after the characters of a match. *)
Lemma sub_comment_skip (a b : text) (k : nat) :
  sub_comment_re (length a + k) (a ++ b) = sub_comment_re k b.
Proof. induction a as [|c a IH]; simpl; [reflexivity | exact IH]. Qed.

(** A closed comment at the head of a text is removed whole. *)
Lemma sub_comment_head (c b : text) :
  ~ In "]"%char c ->
  sub_comment_re 0 ("["%char :: c ++ "]"%char :: b) = sub_comment_re 0 b.
Proof.
  intros H. simpl. rewrite index_app_first by exact H.
  replace (S (length c)) with (length (c ++ ["]"%char]) + 0)
    by (rewrite length_app; simpl; lia).
  replace (c ++ "]"%char :: b) with ((c ++ ["]"%char]) ++ b)
    by (rewrite <- app_assoc; reflexivity).
  apply sub_comment_skip.
Qed.

Lemma no_closing_comment_free (t : text) :
  ~ In "]"%char t -> comment_free t = true.
Proof.
  induction t as [|c r IH]; simpl; [reflexivity|]. intros H.
  assert (N : Str.index "]" r = None)
    by (apply index_None; intros F; apply H; right; exact F).
  rewrite N, IH by (intros F; apply H; right; exact F).
  destruct (Char.eqb c "["); reflexivity.
Qed.

(** Without a quoted span the token pattern is a split at whitespace. *)
Lemma finditer_split (s : text) :
  no_quoted_span s = true ->
  forall k, finditer_tokens k s = Str.split_go k s.
Proof.
  induction s as [|c r IH]; intros H k; [reflexivity|].
  simpl in H. apply andb_true_iff in H as [H1 H2].
  simpl. destruct k as [|k]; [|apply IH, H2].
  assert (Q : forall q, is_quote q -> quoted_group q c r = None).
  { intros q Hq. unfold quoted_group.
    destruct (Char.eqb c q) eqn:E; [|reflexivity].
    apply eqb_eq in E. subst q.
    assert (quote_char c = true) as Hc.
    { unfold quote_char. destruct Hq as [-> | ->]; rewrite eqb_refl;
        [reflexivity | apply orb_true_r]. }
    rewrite Hc in H1. apply negb_true_iff in H1.
    rewrite (contains_index_None _ _ H1). reflexivity. }
  rewrite !Q by (unfold is_quote; auto).
  rewrite !IH by exact H2. reflexivity.
Qed.

Lemma skipn_app_le {A} (n : nat) (a b : list A) :
  n <= length a -> skipn n (a ++ b) = skipn n a ++ b.
Proof.
  intros L. rewrite skipn_app. replace (n - length a) with 0 by lia.
  reflexivity.
Qed.

(** Cutting at the first semicolon: what follows it plays no part. *)
Lemma cut_at_semicolon (a b : text) :
  exists n, Str.index ";" (a ++ ";"%char :: b) = Some n /\
            Str.index ";" (a ++ [";"%char]) = Some n /\
            firstn n (a ++ ";"%char :: b) = firstn n (a ++ [";"%char]).
Proof.
  destruct (Str.index ";" a) as [n|] eqn:E.
  - exists n. rewrite !(index_app_Some _ _ _ _ E).
    apply index_Some in E as (_ & _ & L).
    repeat split. rewrite !firstn_app.
    replace (n - length a) with 0 by lia. reflexivity.
  - apply index_None in E. exists (length a).
    rewrite !index_app_first by exact E. repeat split.
    rewrite !firstn_app, !Nat.sub_diag, !firstn_all. reflexivity.
Qed.

End ScanFacts.

(** X1: a closed comment is removed whatever it holds, so its content
    never reaches the extraction: with the comments before it closed, a
    text with the comment and the text without it give the same labels,
    whatever step reads the MATRIX block. *)
Theorem comment_content_ignored (a c b : text)
    (matrix_step : text -> list text)
    (Hclosed : Str.contains "[" (strip_nexus_comments a) = false)
    (Hbody : Str.contains "]" c = false) :
  strip_nexus_comments (a ++ "["%char :: c ++ "]"%char :: b)
  = strip_nexus_comments a ++ strip_nexus_comments b /\
  parse_nexus_with matrix_step (a ++ "["%char :: c ++ "]"%char :: b)
  = parse_nexus_with matrix_step (a ++ b).
Proof.
  apply ScanFacts.contains_false in Hclosed, Hbody.
  assert (E1 : strip_nexus_comments (a ++ "["%char :: c ++ "]"%char :: b)
               = strip_nexus_comments a ++ strip_nexus_comments b).
  { unfold strip_nexus_comments in *.
    rewrite CommentFacts.sub_comment_closed; [| lia | exact Hclosed].
    rewrite ScanFacts.sub_comment_head by exact Hbody. reflexivity. }
  assert (E2 : strip_nexus_comments (a ++ b)
               = strip_nexus_comments a ++ strip_nexus_comments b).
  { unfold strip_nexus_comments in *.
    apply CommentFacts.sub_comment_closed; [lia | exact Hclosed]. }
  split; [exact E1|]. unfold parse_nexus_with. rewrite E1, E2. reflexivity.
Qed.

Lemma comment_content_ignored_witness :
  parse_nexus_text (str "[x] taxlabels a [matrix; taxlabels z;] b;")
  = parse_nexus_text (str "[x] taxlabels a  b;").
Proof.
  apply (proj2 (comment_content_ignored (str "[x] taxlabels a ")
                  (str "matrix; taxlabels z;") (str " b;")
                  parse_matrix_block eq_refl eq_refl)).
Defined.

(** X2: a bracket that nothing closes opens no comment: a text without
    closing bracket is returned as it is. *)
Theorem unclosed_comment_kept (t : text)
    (Hopen : Str.contains "]" t = false) :
  strip_nexus_comments t = t.
Proof.
  apply CommentFacts.sub_comment_free, ScanFacts.no_closing_comment_free.
  apply ScanFacts.contains_false, Hopen.
Qed.

Lemma unclosed_comment_kept_witness :
  strip_nexus_comments (str "taxlabels a [b c;") = str "taxlabels a [b c;".
Proof. apply unclosed_comment_kept. reflexivity. Defined.

(** X3: on a text in which no quote is followed by the same quote, so
    also with a quote that nothing closes, the tokens are those of a
    split at whitespace: the quote stays in its token. *)
Theorem tokenize_without_quoted_span (line : text)
    (Hquotes : no_quoted_span line = true) :
  tokenize line = Str.split line.
Proof.
  rewrite TokenFacts.tokenize_unstripped. unfold Str.split.
  apply ScanFacts.finditer_split, Hquotes.
Qed.

Lemma tokenize_without_quoted_span_witness :
  tokenize (str " 'tax one taxB ") = [str "'tax"; str "one"; str "taxB"].
Proof.
  rewrite tokenize_without_quoted_span by reflexivity. reflexivity.
Defined.

(** X4: the TAXLABELS step reads up to the first semicolon after the
    keyword and no further: in a text that keeps its places when
    lowered, once the keyword is found, the text after that semicolon
    plays no part; and a text without any semicolon yields no label. *)
Theorem taxlabels_block_boundary (a : text) (idx : nat)
    (Halign : lower_aligned a = true)
    (Hkey : Str.find (str "taxlabels") (Str.lower a) = Some idx) :
  (forall b, parse_taxlabels_block (a ++ ";"%char :: b)
             = parse_taxlabels_block (a ++ [";"%char])) /\
  (Str.contains ";" a = false -> parse_taxlabels_block a = []).
Proof.
  assert (L : idx <= length a).
  { apply FindFacts.find_bound in Hkey.
    apply Nat.eqb_eq in Halign. rewrite Halign in Hkey. lia. }
  split.
  - intros b. unfold parse_taxlabels_block.
    rewrite !FindFacts.lower_app, !(FindFacts.find_app _ _ _ _ Hkey).
    rewrite !(ScanFacts.skipn_app_le _ _ _ L).
    destruct (ScanFacts.cut_at_semicolon (skipn idx a) b) as (n & E1 & E2 & E3).
    rewrite E1, E2, E3. reflexivity.
  - intros H. unfold parse_taxlabels_block. rewrite Hkey.
    assert (N : Str.index ";" (skipn idx a) = None).
    { apply StrFacts.index_None. intros F.
      apply StrFacts.skipn_In in F. revert F.
      apply ScanFacts.contains_false, H. }
    rewrite N. reflexivity.
Qed.

Lemma taxlabels_block_boundary_witness :
  parse_taxlabels_block (str "TaxLabels a 'b c'; matrix a AC; taxlabels z;")
  = parse_taxlabels_block (str "TaxLabels a 'b c';") /\
  parse_taxlabels_block (str "taxlabels a b c") = [].
Proof.
  split.
  - apply (proj1 (taxlabels_block_boundary (str "TaxLabels a 'b c'") 0
                        eq_refl eq_refl)
                 (str " matrix a AC; taxlabels z;")).
  - apply (proj2 (taxlabels_block_boundary (str "taxlabels a b c") 0
                        eq_refl eq_refl)).
    reflexivity.
Defined.

(** X5: the MATRIX step, too, reads no further than the first semicolon
    after the keyword: in a text that keeps its places when lowered,
    once the keyword is found, the text after that semicolon plays no
    part. *)
Theorem matrix_block_boundary (a b : text) (midx : nat)
    (Halign : lower_aligned a = true)
    (Hkey : Str.find (str "matrix") (Str.lower a) = Some midx) :
  parse_matrix_block (a ++ ";"%char :: b) = parse_matrix_block (a ++ [";"%char]).
Proof.
  assert (L : midx + 6 <= length a).
  { apply FindFacts.find_bound in Hkey.
    apply Nat.eqb_eq in Halign. rewrite Halign in Hkey. exact Hkey. }
  unfold parse_matrix_block.
  rewrite !FindFacts.lower_app, !(FindFacts.find_app _ _ _ _ Hkey).
  simpl length. rewrite !(ScanFacts.skipn_app_le _ _ _ L).
  destruct (ScanFacts.cut_at_semicolon (skipn (midx + 6) a) b)
    as (n & E1 & E2 & E3).
  rewrite E1, E2, E3. reflexivity.
Qed.

Lemma matrix_block_boundary_witness :
  parse_matrix_block (str "Matrix t1 AC; end; t2 GG;")
  = parse_matrix_block (str "Matrix t1 AC;").
Proof.
  apply (matrix_block_boundary (str "Matrix t1 AC") (str " end; t2 GG;") 0);
    reflexivity.
Defined.

(* ------------------------------------------------------------------ *)
(** ** Rows of a MATRIX block *)

Module MatrixFacts.
Import StrFacts StripFacts TokenFacts FindFacts MatrixBlock.

Lemma linebreak_space (c : ascii) :
  Char.islinebreak c = true -> Char.isspace c = true.
Proof.
  unfold Char.islinebreak, Char.isspace. rewrite !existsb_exists.
  intros (x & Hx & E). exists x. split; [|exact E].
  simpl in *. tauto.
Qed.

Lemma solid_one_line (s : text) : solid s -> one_line s.
Proof.
  unfold solid, one_line. apply List.Forall_impl. intros c Hc. split.
  - apply eqb_neq. intros ->. discriminate Hc.
  - destruct (Char.islinebreak c) eqn:E; [|reflexivity].
    apply linebreak_space in E. congruence.
Qed.

Lemma inline_char (c : ascii) :
  Char.eqb c " " || Char.eqb c TAB = true ->
  Char.isspace c = true /\ Char.eqb c CR = false /\
  Char.islinebreak c = false /\ c <> ";"%char.
Proof.
  intros H. apply orb_true_iff in H. rewrite !eqb_eq in H.
  destruct H as [-> | ->]; repeat split; discriminate.
Qed.

Lemma inline_blank (s : text) : inlineb s = true -> blank s.
Proof.
  unfold inlineb, blank. rewrite forallb_forall, List.Forall_forall.
  intros H c Hc. apply (inline_char c (H c Hc)).
Qed.

Lemma inline_one_line (s : text) : inlineb s = true -> one_line s.
Proof.
  unfold inlineb, one_line. rewrite forallb_forall, List.Forall_forall.
  intros H c Hc. destruct (inline_char c (H c Hc)) as (_ & A & B & _). auto.
Qed.

Lemma inline_no_semicolon (s : text) : inlineb s = true -> ~ In ";"%char s.
Proof.
  unfold inlineb. rewrite forallb_forall. intros H F.
  apply (inline_char _ (H _ F)). reflexivity.
Qed.

Lemma one_line_app (a b : text) : one_line a -> one_line b -> one_line (a ++ b).
Proof. unfold one_line. intros. apply Forall_app. auto. Qed.

(** A line closed by a line feed is one element of [splitlines]. *)
Lemma splitlines_go_line (l rest : text) :
  one_line l ->
  forall cur, Str.splitlines_go cur (l ++ LF :: rest)
              = (rev cur ++ l) :: Str.splitlines_go [] rest.
Proof.
  induction 1 as [|c l [H1 H2] _ IH]; intros cur.
  - simpl. change (Char.eqb LF CR) with false.
    change (Char.islinebreak LF) with true. cbv iota.
    rewrite app_nil_r. reflexivity.
  - simpl. rewrite H1, H2, IH. simpl. rewrite <- app_assoc. reflexivity.
Qed.

(** What follows the last line feed is a last element, unless empty. *)
Lemma splitlines_go_last (l : text) :
  one_line l ->
  forall cur, Str.splitlines_go cur l
              = match rev cur ++ l with [] => [] | x => [x] end.
Proof.
  induction 1 as [|c l [H1 H2] _ IH]; intros cur.
  - simpl. rewrite app_nil_r. destruct cur as [|x cur]; [reflexivity|].
    simpl. destruct (rev cur ++ [x]) eqn:E; [|reflexivity].
    destruct (rev cur); discriminate.
  - simpl. rewrite H1, H2, IH. simpl. rewrite <- app_assoc. reflexivity.
Qed.

Lemma matrix_rows_cons (raw : text) (rest : list text) :
  matrix_rows (raw :: rest) =
  match Str.strip raw with
  | [] => matrix_rows rest
  | line =>
      if skipped_line line then matrix_rows rest
      else match tokenize line with
           | [] => matrix_rows rest
           | tok0 :: _ => tok0 :: matrix_rows rest
           end
  end.
Proof. simpl. destruct (Str.strip raw); reflexivity. Qed.

Lemma lstrip_blank (s : text) : blank s -> Str.lstrip s = [].
Proof.
  induction 1 as [|c s Hc _ IH]; [reflexivity|]. simpl. rewrite Hc. exact IH.
Qed.

Lemma strip_blank (s : text) : blank s -> Str.strip s = [].
Proof.
  intros B. unfold Str.strip. rewrite (lstrip_blank _ B). reflexivity.
Qed.

(** A blank line gives no row. *)
Lemma matrix_rows_blank (raw : text) (rest : list text) :
  blank raw -> matrix_rows (raw :: rest) = matrix_rows rest.
Proof. intros B. rewrite matrix_rows_cons, (strip_blank _ B). reflexivity. Qed.

Lemma rstrip_rec_solid_tail (x d : text) :
  solid d -> d <> [] -> rstrip_rec (x ++ d) = x ++ d.
Proof.
  intros Hd Nd. induction x as [|c x IH]; simpl.
  - apply rstrip_rec_solid, Hd.
  - rewrite IH. destruct (x ++ d) eqn:E; [|reflexivity].
    apply app_eq_nil in E as [_ E]. contradiction.
Qed.

(** A line that starts and ends without whitespace is its own trimming. *)
Lemma strip_solid_ends (c : ascii) (x d : text) :
  Char.isspace c = false -> solid d -> d <> [] ->
  Str.strip (c :: x ++ d) = c :: x ++ d.
Proof.
  intros Hc Hd Nd. unfold Str.strip.
  rewrite lstrip_solid_head, rstrip_rec_ok by exact Hc.
  apply (rstrip_rec_solid_tail (c :: x) d Hd Nd).
Qed.

Ltac row_parts H :=
  unfold valid_row in H; rewrite ?andb_true_iff in H;
  destruct H as ((((((((Hn & Hq) & Hsn) & Hs) & Hsne) & Hd) & Hdne) & Hsd) & Hk).

(** A valid data line gives its name. *)
Lemma matrix_rows_data (n sep d : text) (rest : list text) :
  valid_row (Data n sep d) = true ->
  matrix_rows ((n ++ sep ++ d) :: rest) = n :: matrix_rows rest.
Proof.
  intros H. row_parts H.
  apply TaxlabelsFacts.solidb_solid in Hn, Hd.
  destruct n as [|c n]; [discriminate|].
  assert (Hc : Char.isspace c = false) by (inversion Hn; assumption).
  assert (Nd : d <> []) by (destruct d; [discriminate | discriminate]).
  rewrite matrix_rows_cons.
  replace ((c :: n) ++ sep ++ d) with (c :: (n ++ sep) ++ d)
    by (simpl; rewrite <- app_assoc; reflexivity).
  rewrite (strip_solid_ends c (n ++ sep) d Hc Hd Nd).
  replace (c :: (n ++ sep) ++ d) with ((c :: n) ++ sep ++ d)
    by (simpl; rewrite <- app_assoc; reflexivity).
  simpl row_line in Hk. apply negb_true_iff in Hk.
  cbv zeta. simpl app in *. rewrite Hk.
  rewrite tokenize_unstripped, finditer_bare.
  - reflexivity.
  - apply negb_true_iff in Hq. unfold quote_char in Hq.
    apply orb_false_iff in Hq as [Q _]. apply eqb_neq, Q.
  - apply negb_true_iff in Hq. unfold quote_char in Hq.
    apply orb_false_iff in Hq as [_ Q]. apply eqb_neq, Q.
  - exact Hn.
  - apply inline_blank in Hs. destruct Hs as [|x sep Hx _]; [discriminate|].
    simpl. exact Hx.
Qed.

Lemma row_one_line (r : Row) : valid_row r = true -> one_line (row_line r).
Proof.
  destruct r as [n sep d|ws]; simpl row_line; intros H.
  - row_parts H. repeat apply one_line_app.
    + apply solid_one_line, TaxlabelsFacts.solidb_solid, Hn.
    + apply inline_one_line, Hs.
    + apply solid_one_line, TaxlabelsFacts.solidb_solid, Hd.
  - apply inline_one_line, H.
Qed.

Lemma row_no_semicolon (r : Row) :
  valid_row r = true -> ~ In ";"%char (row_line r).
Proof.
  destruct r as [n sep d|ws]; simpl row_line; intros H.
  - row_parts H. intros F.
    apply in_app_or in F as [F|F];
      [revert F; apply TaxlabelsFacts.absent_In, Hsn|].
    apply in_app_or in F as [F|F];
      [revert F; apply inline_no_semicolon, Hs
      | revert F; apply TaxlabelsFacts.absent_In, Hsd].
  - apply inline_no_semicolon, H.
Qed.

Lemma rows_no_semicolon (rows : list Row) :
  forallb valid_row rows = true -> ~ In ";"%char (render_rows rows).
Proof.
  induction rows as [|r rows IH]; simpl; [tauto|].
  intros H. apply andb_true_iff in H as [H1 H2].
  rewrite <- app_assoc. intros F. apply in_app_or in F as [F|F].
  - revert F. apply row_no_semicolon, H1.
  - simpl in F. destruct F as [F|F]; [discriminate F | exact (IH H2 F)].
Qed.

(** The rows of the lines, the last one perhaps not closed. *)
Lemma block_rows (rows : list Row) (trail : text) :
  forallb valid_row rows = true -> inlineb trail = true ->
  matrix_rows (Str.splitlines_go [] (render_rows rows ++ trail))
  = row_names rows.
Proof.
  intros H T. induction rows as [|r rows IH].
  - simpl. rewrite (splitlines_go_last _ (inline_one_line _ T)). simpl.
    destruct trail as [|c trail]; [reflexivity|].
    apply matrix_rows_blank, inline_blank, T.
  - simpl in H. apply andb_true_iff in H as [H1 H2].
    simpl render_rows. rewrite <- !app_assoc. simpl app.
    rewrite (splitlines_go_line _ _ (row_one_line _ H1)). simpl rev. simpl app.
    destruct r as [n sep d|ws].
    + simpl row_line. rewrite (matrix_rows_data _ _ _ _ H1).
      simpl. f_equal. apply IH, H2.
    + simpl row_line. rewrite matrix_rows_blank by (apply inline_blank, H1).
      simpl. apply IH, H2.
Qed.

Section Block.
Variables (pre kw gap : text) (rows : list Row) (trail post : text).
Hypothesis WF : well_formed pre kw gap rows trail = true.

Let body : text := gap ++ LF :: render_rows rows ++ trail.

Lemma matrix_wf_parts :
  Str.lower kw = str "matrix" /\
  Str.find (str "matrix") (Str.lower pre ++ str "matri") = None /\
  inlineb gap = true /\ forallb valid_row rows = true /\ inlineb trail = true.
Proof.
  pose proof WF as H. unfold well_formed in H. rewrite ?andb_true_iff in H.
  destruct H as (((((H1 & H2) & H3) & H4) & H5) & _).
  repeat split; try assumption.
  - apply TaxlabelsFacts.text_eqb_eq, H1.
  - destruct (Str.find _ _); [discriminate | reflexivity].
Qed.

Lemma matrix_wf_aligned : length (Str.lower pre) = length pre.
Proof.
  pose proof WF as H. unfold well_formed in H. rewrite ?andb_true_iff in H.
  destruct H as (_ & H). apply Nat.eqb_eq, H.
Qed.

Lemma body_no_semicolon : ~ In ";"%char body.
Proof.
  destruct matrix_wf_parts as (_ & _ & G & R & T). unfold body. intros F.
  apply in_app_or in F as [F|F]; [revert F; apply inline_no_semicolon, G|].
  simpl in F. destruct F as [F|F]; [discriminate F|].
  apply in_app_or in F as [F|F];
    [revert F; apply rows_no_semicolon, R | revert F; apply inline_no_semicolon, T].
Qed.

Lemma body_rows : matrix_rows (Str.splitlines body) = row_names rows.
Proof.
  destruct matrix_wf_parts as (_ & _ & G & R & T). unfold body, Str.splitlines.
  rewrite (splitlines_go_line _ _ (inline_one_line _ G)). simpl rev. simpl app.
  rewrite matrix_rows_blank by (apply inline_blank, G).
  apply block_rows; assumption.
Qed.

Lemma matrix_block_labels :
  parse_matrix_block (matrix_text pre kw gap rows trail post) = row_names rows.
Proof.
  destruct matrix_wf_parts as (K & P & _).
  assert (L : length kw = 6) by (rewrite <- lower_length, K; reflexivity).
  unfold parse_matrix_block, matrix_text. fold body.
  assert (S : Str.startswith (str "matrix")
                (Str.lower (kw ++ body ++ ";"%char :: post)) = true).
  { rewrite lower_app, K. apply startswith_self_app. }
  rewrite lower_app, (find_at _ _ _ S).
  - rewrite matrix_wf_aligned. simpl length.
    assert (D : skipn (length pre + 6) (pre ++ kw ++ body ++ ";"%char :: post)
                = body ++ ";"%char :: post).
    { rewrite app_assoc.
      replace (length pre + 6) with (length (pre ++ kw))
        by (rewrite length_app; lia).
      apply drop_app_length. }
    rewrite D, (index_app_first _ _ _ body_no_semicolon).
    rewrite firstn_app, Nat.sub_diag, firstn_all. simpl firstn.
    rewrite app_nil_r. apply body_rows.
  - rewrite lower_app, K. exact P.
Qed.

End Block.

Lemma row_names_clean (rows : list Row) (l : text) :
  forallb valid_row rows = true -> In l (row_names rows) ->
  trimmed l /\ ~ In ";"%char l.
Proof.
  intros H Hl. unfold row_names in Hl. apply in_flat_map in Hl as (r & Hr & Hl).
  rewrite forallb_forall in H. apply H in Hr.
  destruct r as [n sep d|ws]; [|destruct Hl].
  destruct Hl as [<-|[]]. row_parts Hr. split.
  - apply NexusFacts.solid_trimmed; [apply TaxlabelsFacts.solidb_solid, Hn|].
    destruct n; [discriminate | discriminate].
  - apply TaxlabelsFacts.absent_In, Hsn.
Qed.

End MatrixFacts.

(** X6: for a NEXUS text with a well-formed MATRIX block, whose text
    before the keyword keeps its places when lowered and does not hold
    the keyword, the MATRIX step returns the names that lead the data
    lines, in order; with no TAXLABELS keyword and no comment in the
    text, the extractor returns exactly the set of these names, and
    repeating the lines, as the groups of an interleaved matrix do,
    changes nothing to it. *)
Theorem matrix_rows_extracted (pre kw gap : text) (rows : list MatrixBlock.Row)
    (trail post : text)
    (WF : MatrixBlock.well_formed pre kw gap rows trail = true) :
  let t := MatrixBlock.matrix_text pre kw gap rows trail post in
  parse_matrix_block t = MatrixBlock.row_names rows /\
  (Str.contains "[" t = false ->
   Str.find (str "taxlabels") (Str.lower t) = None ->
   parse_nexus_text t = list_to_set (MatrixBlock.row_names rows)) /\
  (list_to_set (parse_matrix_block
                  (MatrixBlock.matrix_text pre kw gap (rows ++ rows) trail post))
   = (list_to_set (parse_matrix_block t) : gset text)).
Proof.
  intros t.
  assert (E : parse_matrix_block t = MatrixBlock.row_names rows)
    by (apply MatrixFacts.matrix_block_labels, WF).
  pose proof (MatrixFacts.matrix_wf_parts _ _ _ _ _ WF) as (_ & _ & _ & R & _).
  split; [exact E|]. split.
  - intros Hc Hk.
    assert (S : strip_nexus_comments t = t).
    { unfold strip_nexus_comments.
      rewrite <- (app_nil_r t) at 1.
      rewrite CommentFacts.sub_comment_app
        by (apply ScanFacts.contains_false, Hc).
      apply app_nil_r. }
    unfold parse_nexus_text.
    destruct (parse_nexus_with_cases t parse_matrix_block) as [_ C].
    rewrite S in C. rewrite C, E.
    + apply TaxlabelsFacts.cleaned_id. intros l Hl.
      apply elem_of_list_to_set, list_elem_of_In in Hl.
      apply (MatrixFacts.row_names_clean rows); assumption.
    + unfold parse_taxlabels_block. rewrite Hk. reflexivity.
  - rewrite E. rewrite MatrixFacts.matrix_block_labels.
    + unfold MatrixBlock.row_names. rewrite flat_map_app.
      apply set_eq. intros x. rewrite !elem_of_list_to_set, !list_elem_of_In.
      rewrite in_app_iff. tauto.
    + unfold MatrixBlock.well_formed in *. rewrite forallb_app.
      rewrite ?andb_true_iff in *. tauto.
Qed.

Lemma matrix_rows_extracted_witness :
  parse_nexus_text interleaved_sample
  = list_to_set [str "t1"; str "t2"; str "t1"; str "t2"].
Proof.
  assert (WF : MatrixBlock.well_formed
                 (str "#NEXUS" ++ [LF] ++ str "begin data;" ++ [LF]
                    ++ str "format interleave;" ++ [LF])
                 (str "MATRIX") [] interleaved_rows [] = true)
    by (vm_compute; reflexivity).
  pose proof (matrix_rows_extracted _ _ _ _ _ (LF :: str "end;") WF) as H.
  cbv zeta in H. destruct H as (_ & H & _). apply H.
  - vm_compute. reflexivity.
  - vm_compute. reflexivity.
Defined.

(* ------------------------------------------------------------------ *)
(** ** Format detection *)

Module DetectFacts.
Import StrFacts StripFacts.

(** One turn of the scan of the content. *)
Lemma detect_lines_cons (line : text) (rest : list text) :
  detect_lines (line :: rest) =
  match Str.strip line with
  | [] => detect_lines rest
  | s =>
      if Str.startswith (str ">") s then Some Fasta
      else if startswithN NEXUS_MARK (Str.upper s) then Some Nexus
      else detect_lines rest
  end.
Proof. reflexivity. Qed.

(** The scan of the content answers FASTA or NEXUS, or nothing. *)
Lemma detect_lines_known (lines : list text) (fmt : Format) :
  detect_lines lines = Some fmt -> fmt <> Unknown.
Proof.
  induction lines as [|line rest IH]; [discriminate|].
  rewrite detect_lines_cons.
  destruct (Str.strip line) as [|c s]; [exact IH|]. cbv zeta.
  destruct (Str.startswith (str ">") (c :: s)); [intros [= <-]; discriminate|].
  destruct (startswithN NEXUS_MARK (Str.upper (c :: s)));
    [intros [= <-]; discriminate | exact IH].
Qed.

Lemma universal_newlines_prefix (m rest : text) :
  Forall (fun c => Char.eqb c CR = false) m ->
  universal_newlines (m ++ rest) = m ++ universal_newlines rest.
Proof.
  induction 1 as [|c m Hc _ IH]; [reflexivity|].
  simpl. rewrite Hc, IH. reflexivity.
Qed.

Lemma readlines_go_prefix (m rest : text) :
  Forall (fun c => Char.eqb c LF = false) m ->
  forall cur, readlines_go cur (m ++ rest) = readlines_go (rev m ++ cur) rest.
Proof.
  induction 1 as [|c m Hc _ IH]; intros cur; [reflexivity|].
  simpl. rewrite Hc, IH, <- app_assoc. reflexivity.
Qed.

(** A line under way is the start of the first line read. *)
Lemma readlines_go_first (s : text) :
  forall cur, cur <> [] ->
    exists l more, readlines_go cur s = (rev cur ++ l) :: more.
Proof.
  induction s as [|c s IH]; intros cur N.
  - simpl. destruct cur as [|x cur]; [contradiction|].
    exists [], []. rewrite app_nil_r. reflexivity.
  - simpl. destruct (Char.eqb c LF).
    + exists [c], (readlines_go [] s). reflexivity.
    + destruct (IH (c :: cur)) as (l & more & E); [discriminate|].
      exists (c :: l), more. rewrite E. simpl. rewrite <- app_assoc.
      reflexivity.
Qed.

Lemma solid_no_CR (m : text) :
  solid m -> Forall (fun c => Char.eqb c CR = false) m.
Proof.
  apply List.Forall_impl. intros c Hc. apply eqb_neq. intros ->. discriminate Hc.
Qed.

Lemma solid_no_LF (m : text) :
  solid m -> Forall (fun c => Char.eqb c LF = false) m.
Proof.
  apply List.Forall_impl. intros c Hc. apply eqb_neq. intros ->. discriminate Hc.
Qed.

Lemma rstrip_rec_solid_prefix (m l : text) :
  solid m -> exists l', rstrip_rec (m ++ l) = m ++ l'.
Proof.
  induction 1 as [|c m Hc _ [l' IH]].
  - exists (rstrip_rec l). reflexivity.
  - exists l'. simpl app. rewrite rstrip_rec_solid_head, IH by exact Hc.
    reflexivity.
Qed.

(** A file that starts with characters other than whitespace: they start
    the first line scanned, trimmed. *)
Lemma first_line (m rest : text) :
  solid m -> m <> [] ->
  exists l more,
    readlines (universal_newlines (m ++ rest)) = l :: more /\
    exists tail, Str.strip l = m ++ tail.
Proof.
  intros Hm Nm.
  rewrite (universal_newlines_prefix _ _ (solid_no_CR _ Hm)).
  unfold readlines. rewrite (readlines_go_prefix _ _ (solid_no_LF _ Hm)).
  rewrite app_nil_r.
  destruct (readlines_go_first (universal_newlines rest) (rev m))
    as (l & more & E).
  { intros F. apply (f_equal (@rev ascii)) in F.
    rewrite rev_involutive in F. contradiction. }
  rewrite rev_involutive in E. exists (m ++ l), more. split; [exact E|].
  destruct Hm as [|c m Hc Hm]; [contradiction|].
  unfold Str.strip. simpl app.
  rewrite lstrip_solid_head, rstrip_rec_ok, rstrip_rec_solid_head by exact Hc.
  destruct (rstrip_rec_solid_prefix m l Hm) as [l' E'].
  exists l'. rewrite E'. reflexivity.
Qed.

(** What the case of the letters of the marker allows. *)
Lemma marker_char (c : ascii) :
  In (Char.lower c) (str "#nexus") ->
  Char.isspace c = false /\ Char.upper c = Char.upper (Char.lower c).
Proof.
  destruct c as [[] [] [] [] [] [] [] []]; vm_compute;
    intros H; repeat (destruct H as [H|H]; [discriminate H|]);
    try contradiction; split; reflexivity.
Qed.

Lemma marker_text (m : text) :
  Str.lower m = str "#nexus" -> solid m /\ Str.upper m = NEXUS_MARK.
Proof.
  intros E.
  assert (A : Forall (fun c => In (Char.lower c) (str "#nexus")) m).
  { apply List.Forall_forall. intros c Hc. rewrite <- E.
    apply in_map, Hc. }
  split.
  - unfold solid. revert A. apply List.Forall_impl. intros c Hc.
    apply marker_char, Hc.
  - transitivity (Str.upper (Str.lower m)); [|rewrite E; reflexivity].
    clear E. induction A as [|c m Hc _ IH]; [reflexivity|].
    unfold Str.upper in *. simpl.
    rewrite (proj2 (marker_char c Hc)), IH. reflexivity.
Qed.

Lemma startswithN_app (p s : list N) : startswithN p (p ++ s) = true.
Proof. induction p; simpl; [reflexivity|]. rewrite N.eqb_refl. exact IHp. Qed.

Lemma detect_lines_blank (lines : list text) :
  Forall blank lines -> detect_lines lines = None.
Proof.
  induction 1 as [|l lines Hl _ IH]; [reflexivity|].
  rewrite detect_lines_cons, (MatrixFacts.strip_blank _ Hl). exact IH.
Qed.

(** The lines of a run of blank lines. *)
Lemma readlines_blank_lines (wss : list text) (rest : text) :
  forallb MatrixBlock.inlineb wss = true ->
  readlines (universal_newlines (blank_lines wss ++ rest))
  = map (fun ws => ws ++ [LF]) wss ++ readlines (universal_newlines rest).
Proof.
  unfold readlines. induction wss as [|ws wss IH]; intros H; [reflexivity|].
  simpl in H. apply andb_true_iff in H as [H1 H2].
  pose proof (MatrixFacts.inline_one_line _ H1) as O.
  assert (C : Forall (fun c => Char.eqb c CR = false) (ws ++ [LF])).
  { apply Forall_app. split.
    - revert O. apply List.Forall_impl. tauto.
    - repeat constructor. }
  assert (L : Forall (fun c => Char.eqb c LF = false) ws).
  { revert O. apply List.Forall_impl. intros c [_ B].
    apply eqb_neq. intros ->. discriminate B. }
  simpl blank_lines. rewrite <- !app_assoc.
  rewrite app_assoc, (universal_newlines_prefix _ _ C), <- app_assoc.
  rewrite (readlines_go_prefix _ _ L). simpl app.
  simpl readlines_go. change (Char.eqb LF LF) with true. cbv iota.
  rewrite app_nil_r, rev_involutive. simpl map. simpl app.
  f_equal. apply IH, H2.
Qed.

End DetectFacts.

(** X7: a file with a recognized extension, in any case of its letters,
    is never classified as unknown, whatever it holds and whether it can
    be read or not; so the aggregator always runs an extractor on it. *)
Theorem known_suffix_never_unknown (f : File)
    (Hext : format_of_suffix (Str.lower (suffix f)) <> Unknown) :
  detect_format_from_content f <> Unknown /\ extract f <> None.
Proof.
  assert (D : detect_format_from_content f <> Unknown).
  { unfold detect_format_from_content.
    destruct (content f) as [s|]; [|exact Hext].
    destruct (detect_lines _) as [fmt|] eqn:E; [|exact Hext].
    eapply DetectFacts.detect_lines_known, E. }
  split; [exact D|]. unfold extract.
  destruct (detect_format_from_content f); [discriminate | discriminate|].
  contradiction.
Qed.

Lemma known_suffix_never_unknown_witness :
  detect_format_from_content
    (mkFile (str "x.FAS") (str ".FAS") (Some (str "no signature here")))
  <> Unknown.
Proof.
  apply known_suffix_never_unknown. vm_compute. discriminate.
Defined.

(** X8: the content decides before the extension: a readable file that
    starts with the FASTA marker is FASTA, and one that starts with the
    NEXUS marker, in any case of its letters, is NEXUS, whatever the
    extension says. *)
Theorem signature_before_suffix (f : File) (m rest : text)
    (Hcontent : content f = Some (m ++ rest)) :
  (m = str ">" -> detect_format_from_content f = Fasta) /\
  (Str.lower m = str "#nexus" -> detect_format_from_content f = Nexus).
Proof.
  unfold detect_format_from_content. rewrite Hcontent. split.
  - intros ->.
    destruct (DetectFacts.first_line (str ">") rest) as (l & more & E & tail & S).
    { repeat constructor. }
    { discriminate. }
    rewrite E. simpl firstn. rewrite DetectFacts.detect_lines_cons, S.
    reflexivity.
  - intros Hm. destruct (DetectFacts.marker_text m Hm) as [Hs Hu].
    destruct (DetectFacts.first_line m rest Hs) as (l & more & E & tail & S).
    { intros ->. discriminate Hm. }
    rewrite E. simpl firstn. rewrite DetectFacts.detect_lines_cons, S.
    destruct m as [|c m]; [discriminate Hm|]. simpl app. cbv iota zeta.
    assert (Hc : Str.startswith (str ">") (c :: m ++ tail) = false).
    { simpl. simpl in Hm. injection Hm as Hc _.
      destruct (Char.eqb ">" c) eqn:Q; [|reflexivity].
      apply StrFacts.eqb_eq in Q. subst c. discriminate Hc. }
    rewrite Hc.
    change (c :: m ++ tail) with ((c :: m) ++ tail).
    unfold Str.upper in *. rewrite flat_map_app, Hu.
    rewrite DetectFacts.startswithN_app. reflexivity.
Qed.

Lemma signature_before_suffix_witness :
  detect_format_from_content fasta_named_nex = Fasta /\
  detect_format_from_content nexus_named_fasta = Nexus.
Proof.
  split.
  - apply (proj1 (signature_before_suffix fasta_named_nex (str ">")
                    (str "taxA" ++ [LF] ++ str "ACGT") eq_refl)).
    reflexivity.
  - apply (proj2 (signature_before_suffix nexus_named_fasta (str "#Nexus")
                    ([LF] ++ str ">x") eq_refl)).
    reflexivity.
Defined.

(** X9: only the first fifty lines are looked at: after fifty lines of
    spaces and tabs the content, whatever it is, plays no part, and the
    extension alone decides. *)
Theorem detection_window (f : File) (wss : list text) (rest : text)
    (Hblank : forallb MatrixBlock.inlineb wss = true)
    (Hfifty : length wss = 50)
    (Hcontent : content f = Some (blank_lines wss ++ rest)) :
  detect_format_from_content f = format_of_suffix (Str.lower (suffix f)).
Proof.
  unfold detect_format_from_content. rewrite Hcontent.
  rewrite (DetectFacts.readlines_blank_lines _ _ Hblank).
  rewrite firstn_app, length_map, Hfifty, Nat.sub_diag. simpl firstn at 2.
  rewrite app_nil_r, firstn_all2 by (rewrite length_map; lia).
  rewrite DetectFacts.detect_lines_blank; [reflexivity|].
  apply List.Forall_forall. intros l Hl.
  apply in_map_iff in Hl as (ws & <- & Hw).
  rewrite forallb_forall in Hblank.
  apply Forall_app. split.
  - apply MatrixFacts.inline_blank, Hblank, Hw.
  - repeat constructor.
Qed.

Lemma detection_window_witness :
  detect_format_from_content
    (mkFile (str "late.txt") (str ".txt")
            (Some (blank_lines (repeat [] 50) ++ str ">taxA")))
  = Unknown.
Proof.
  rewrite (detection_window _ (repeat [] 50) (str ">taxA"));
    reflexivity.
Defined.

(* ------------------------------------------------------------------ *)
(** ** More on the aggregator *)

Module ScanOrderFacts.

Lemma scan_file_unknown (p : File) (verbose : bool) :
  extract p = None ->
  scan_file p false verbose
  = (if verbose then [Ignored (path p)] else [], Ok None) /\
  scan_file p true verbose
  = (if verbose then [Ignored (path p)] else [], Raise (ValueError (path p))).
Proof.
  unfold scan_file, extract.
  destruct (detect_format_from_content p); [discriminate | discriminate|].
  intros _. split; reflexivity.
Qed.

(** The labels of a list of files. *)
Lemma elem_of_labels (paths : list File) (x : text) :
  x ∈ ⋃ (labels_of <$> paths) <-> exists p, In p paths /\ x ∈ labels_of p.
Proof.
  rewrite elem_of_union_list. split.
  - intros (X & HX & Hx). apply list_elem_of_fmap in HX as (p & -> & Hp).
    exists p. split; [apply list_elem_of_In, Hp | exact Hx].
  - intros (p & Hp & Hx). exists (labels_of p). split; [|exact Hx].
    apply list_elem_of_fmap. exists p. split; [reflexivity|].
    apply list_elem_of_In, Hp.
Qed.

(** The result of a turn does not depend on [verbose]. *)
Lemma gather_loop_quiet (paths : list File) (strict v1 v2 : bool) :
  forall taxa, snd (gather_loop paths strict v1 taxa)
               = snd (gather_loop paths strict v2 taxa).
Proof.
  induction paths as [|p rest IH]; intros taxa; [reflexivity|].
  rewrite !GatherFacts.gather_loop_cons, !GatherFacts.scan_file_result.
  destruct (extract p) as [[ts|e]|]; [apply IH | |];
    destruct strict; try reflexivity; apply IH.
Qed.

(** A strict scan that ends with a set has extracted every file. *)
Lemma gather_loop_strict (paths : list File) (verbose : bool) :
  forall taxa taxa',
    snd (gather_loop paths true verbose taxa) = Ok taxa' ->
    (forall p, In p paths -> exists ts, extract p = Some (Ok ts)) /\
    taxa' = taxa ∪ ⋃ (labels_of <$> paths).
Proof.
  induction paths as [|p rest IH]; intros taxa taxa'.
  - simpl. intros [= <-]. split; [intros p []|].
    symmetry. apply (right_id_L ∅ (∪)).
  - rewrite GatherFacts.gather_loop_cons, GatherFacts.scan_file_result.
    destruct (extract p) as [[ts|e]|] eqn:E; [|discriminate|discriminate].
    intros G. destruct (IH _ _ G) as [A B]. split.
    + intros q [<-|Hq]; [exists ts; exact E | apply A, Hq].
    + rewrite B, fmap_cons.
      change (⋃ (labels_of p :: (labels_of <$> rest)))
        with (labels_of p ∪ ⋃ (labels_of <$> rest)).
      unfold labels_of at 2. rewrite E. symmetry. apply (assoc_L (∪)).
Qed.

Lemma scan_file_log (p : File) (strict verbose : bool) (q : text) (e : exn) :
  ~ In (Warned q e) (fst (scan_file p strict verbose)).
Proof.
  unfold scan_file.
  destruct (detect_format_from_content p); simpl.
  - destruct (parse_fasta_taxa p); [destruct verbose|]; simpl;
      intros F; repeat (destruct F as [F|F]; [discriminate F|]); exact F.
  - destruct (parse_nexus_taxa p); [destruct verbose|]; simpl;
      intros F; repeat (destruct F as [F|F]; [discriminate F|]); exact F.
  - destruct verbose; simpl;
      intros F; repeat (destruct F as [F|F]; [discriminate F|]); exact F.
Qed.

(** An extraction fails only on a file that cannot be read. *)
Lemma extract_raise (p : File) (e : exn) :
  extract p = Some (Raise e) -> e = OSError (path p) /\ content p = None.
Proof.
  unfold extract.
  destruct (detect_format_from_content p); [| |discriminate].
  - unfold parse_fasta_taxa. destruct (content p) as [s|].
    + rewrite FastaFacts.parse_fasta_text_spec. discriminate.
    + intros [= <-]. split; reflexivity.
  - unfold parse_nexus_taxa, read_text. destruct (content p) as [s|].
    + discriminate.
    + intros [= <-]. split; reflexivity.
Qed.

Lemma gather_loop_warnings (paths : list File) (strict verbose : bool)
    (q : text) (e : exn) :
  forall taxa,
    In (Warned q e) (fst (gather_loop paths strict verbose taxa)) ->
    exists f, In f paths /\ q = path f /\ e = OSError (path f)
              /\ content f = None.
Proof.
  induction paths as [|p rest IH]; intros taxa; [intros []|].
  simpl. pose proof (scan_file_log p strict verbose q e) as NL.
  pose proof (GatherFacts.scan_file_result p strict verbose) as R.
  destruct (scan_file p strict verbose) as [log [[ts|]|e']]; simpl in NL, R.
  - destruct (gather_loop rest strict verbose (taxa ∪ ts)) as [lg r] eqn:G.
    simpl. intros F. apply in_app_or in F as [F|F]; [contradiction|].
    destruct (IH (taxa ∪ ts)) as (f & Hf & H); [rewrite G; exact F|].
    exists f. split; [right; exact Hf | exact H].
  - destruct (gather_loop rest strict verbose taxa) as [lg r] eqn:G.
    simpl. intros F. apply in_app_or in F as [F|F]; [contradiction|].
    destruct (IH taxa) as (f & Hf & H); [rewrite G; exact F|].
    exists f. split; [right; exact Hf | exact H].
  - destruct strict; [simpl; intros F; contradiction|].
    destruct (gather_loop rest false verbose taxa) as [lg r] eqn:G.
    simpl. intros F. apply in_app_or in F as [F|F]; [contradiction|].
    destruct F as [F|F].
    + injection F as <- <-. exists p.
      destruct (extract p) as [[ts|e'']|] eqn:E; try discriminate R.
      injection R as <-. destruct (extract_raise p e' E) as [-> C].
      repeat split; [left; reflexivity | exact C].
    + destruct (IH taxa) as (f & Hf & H); [rewrite G; exact F|].
      exists f. split; [right; exact Hf | exact H].
Qed.

End ScanOrderFacts.

(** X10: without [strict], the set of taxa depends neither on the order
    of the files, nor on how often a file is listed, nor on [verbose]:
    two lists with the same files give the same set. *)
Theorem gather_taxa_order_free (l1 l2 : list File) (v1 v2 : bool)
    (Hsame : forall f, In f l1 <-> In f l2) :
  snd (gather_taxa l1 false v1) = snd (gather_taxa l2 false v2).
Proof.
  unfold gather_taxa. rewrite !GatherFacts.gather_loop_lax. f_equal. f_equal.
  apply set_eq. intros x. rewrite !ScanOrderFacts.elem_of_labels.
  split; intros (p & Hp & Hx); exists p; (split; [apply Hsame, Hp | exact Hx]).
Qed.

Lemma gather_taxa_order_free_witness :
  snd (gather_taxa [sample_fasta; sample_nexus; sample_fasta] false true)
  = snd (gather_taxa [sample_nexus; sample_fasta] false false).
Proof.
  apply gather_taxa_order_free. intros f. simpl. tauto.
Defined.

(** X11: [verbose] changes the diagnostics only: with or without
    [strict], the scan ends with the same set or the same exception. *)
Theorem gather_taxa_verbose_free (paths : list File) (strict v1 v2 : bool) :
  snd (gather_taxa paths strict v1) = snd (gather_taxa paths strict v2).
Proof. apply ScanOrderFacts.gather_loop_quiet. Qed.

(** X12: a strict scan that ends with a set has extracted every file, and
    its set is the one the scan without [strict] gives. *)
Theorem gather_taxa_strict_agrees (paths : list File) (verbose : bool)
    (taxa : gset text)
    (Hstrict : snd (gather_taxa paths true verbose) = Ok taxa) :
  snd (gather_taxa paths false verbose) = Ok taxa /\
  (forall p, In p paths -> exists ts, extract p = Some (Ok ts)).
Proof.
  unfold gather_taxa in *.
  destruct (ScanOrderFacts.gather_loop_strict _ _ _ _ Hstrict) as [A B].
  split; [|exact A]. rewrite GatherFacts.gather_loop_lax, B. reflexivity.
Qed.

Lemma gather_taxa_strict_agrees_witness :
  snd (gather_taxa [sample_fasta; sample_nexus] false false)
  = Ok {[ str "taxA"; str "taxB"; str "t1"; str "t2" ]}.
Proof.
  apply (gather_taxa_strict_agrees [sample_fasta; sample_nexus] false).
  vm_compute. reflexivity.
Defined.

(** X13: a file of unknown format stops a strict scan with a
    [ValueError] that names it; without [strict] and without [verbose]
    the scan runs as if the file were not listed. *)
Theorem gather_taxa_unknown_format (l1 l2 : list File) (p : File)
    (Hunknown : extract p = None) :
  (forall verbose log1 taxa1,
     gather_taxa l1 true verbose = (log1, Ok taxa1) ->
     snd (gather_taxa (l1 ++ p :: l2) true verbose)
     = Raise (ValueError (path p))) /\
  gather_taxa (l1 ++ p :: l2) false false = gather_taxa (l1 ++ l2) false false.
Proof.
  unfold gather_taxa. split.
  - intros verbose log1 taxa1 G.
    rewrite (GatherFacts.gather_loop_app _ (p :: l2) _ _ _ _ _ G). simpl.
    rewrite (proj2 (ScanOrderFacts.scan_file_unknown p verbose Hunknown)).
    reflexivity.
  - destruct (gather_loop l1 false false ∅) as [log1 r1] eqn:G.
    pose proof (GatherFacts.gather_loop_lax l1 false ∅) as L.
    rewrite G in L. simpl in L. subst r1.
    rewrite (GatherFacts.gather_loop_app _ (p :: l2) _ _ _ _ _ G).
    rewrite (GatherFacts.gather_loop_app _ l2 _ _ _ _ _ G).
    simpl.
    rewrite (proj1 (ScanOrderFacts.scan_file_unknown p false Hunknown)).
    destruct (gather_loop l2 false false _). reflexivity.
Qed.

Lemma gather_taxa_unknown_format_witness :
  snd (gather_taxa [sample_fasta; unknown_file; sample_nexus] true true)
  = Raise (ValueError (str "notes.txt")) /\
  gather_taxa [sample_fasta; unknown_file; sample_nexus] false false
  = gather_taxa [sample_fasta; sample_nexus] false false.
Proof.
  destruct (gather_taxa_unknown_format [sample_fasta] [sample_nexus]
              unknown_file eq_refl) as [H1 H2].
  split; [|exact H2]. eapply H1. vm_compute. reflexivity.
Defined.

(** X14: every warning of a scan is about a file of the list that cannot
    be read, and carries its [OSError]: a readable file never makes an
    extractor raise. *)
Theorem gather_taxa_warnings (paths : list File) (strict verbose : bool)
    (q : text) (e : exn)
    (Hwarn : In (Warned q e) (fst (gather_taxa paths strict verbose))) :
  exists f, In f paths /\ q = path f /\ e = OSError (path f) /\ content f = None.
Proof. eapply ScanOrderFacts.gather_loop_warnings, Hwarn. Qed.

Lemma gather_taxa_warnings_witness :
  exists f, In f [sample_fasta; sample_unreadable]
            /\ str "b.nex" = path f /\ OSError (str "b.nex") = OSError (path f)
            /\ content f = None.
Proof.
  apply (gather_taxa_warnings [sample_fasta; sample_unreadable] false false).
  vm_compute. left. reflexivity.
Defined.

(* ------------------------------------------------------------------ *)
(** ** The order of the output *)

Module OrderFacts.

Lemma ord_inj (x y : ascii) : Char.ord x = Char.ord y -> x = y.
Proof.
  unfold Char.ord. intros H.
  rewrite <- (ascii_N_embedding x), <- (ascii_N_embedding y), H. reflexivity.
Qed.

Lemma text_leb_total (a b : text) : text_leb a b = true \/ text_leb b a = true.
Proof.
  revert b. induction a as [|x a IH]; intros [|y b]; simpl; auto.
  destruct (N.ltb_spec (Char.ord x) (Char.ord y)) as [L|L]; [auto|].
  destruct (N.eqb_spec (Char.ord x) (Char.ord y)) as [E|E].
  - rewrite E, N.ltb_irrefl, N.eqb_refl. apply IH.
  - right. destruct (N.ltb_spec (Char.ord y) (Char.ord x)); [reflexivity | lia].
Qed.

Lemma text_leb_trans (a b c : text) :
  text_leb a b = true -> text_leb b c = true -> text_leb a c = true.
Proof.
  revert b c. induction a as [|x a IH]; intros [|y b] [|z c]; simpl; auto;
    try discriminate.
  destruct (N.ltb_spec (Char.ord x) (Char.ord y)) as [L1|L1];
    destruct (N.ltb_spec (Char.ord y) (Char.ord z)) as [L2|L2];
    destruct (N.ltb_spec (Char.ord x) (Char.ord z)) as [L3|L3];
    try reflexivity;
    destruct (N.eqb_spec (Char.ord x) (Char.ord y)) as [E1|E1];
    destruct (N.eqb_spec (Char.ord y) (Char.ord z)) as [E2|E2];
    destruct (N.eqb_spec (Char.ord x) (Char.ord z)) as [E3|E3];
    try discriminate; try lia; try (intros; discriminate).
  apply IH.
Qed.

Lemma text_leb_antisym (a b : text) :
  text_leb a b = true -> text_leb b a = true -> a = b.
Proof.
  revert b. induction a as [|x a IH]; intros [|y b]; simpl; auto;
    try discriminate.
  destruct (N.ltb_spec (Char.ord x) (Char.ord y)) as [L1|L1];
    destruct (N.ltb_spec (Char.ord y) (Char.ord x)) as [L2|L2]; try lia;
    destruct (N.eqb_spec (Char.ord x) (Char.ord y)) as [E1|E1];
    destruct (N.eqb_spec (Char.ord y) (Char.ord x)) as [E2|E2];
    try discriminate; try lia; try (intros; discriminate).
  intros H1 H2. f_equal; [apply ord_inj, E1 | apply IH; assumption].
Qed.

#[local] Instance text_le_total : Total text_le.
Proof. intros a b. apply text_leb_total. Qed.

#[local] Instance text_le_trans : Transitive text_le.
Proof. intros a b c. apply text_leb_trans. Qed.

#[local] Instance text_le_antisym : AntiSymm (=) text_le.
Proof. intros a b. apply text_leb_antisym. Qed.

Lemma sorted_taxa_sorted (taxa : gset text) :
  StronglySorted text_le (sorted_taxa taxa).
Proof. apply StronglySorted_merge_sort; apply _. Qed.

Lemma sorted_taxa_perm (taxa : gset text) : sorted_taxa taxa ≡ₚ elements taxa.
Proof. apply merge_sort_Permutation. Qed.

Lemma sorted_unique (l1 l2 : list text) :
  l1 ≡ₚ l2 -> merge_sort text_le l1 = merge_sort text_le l2.
Proof.
  intros P. apply (StronglySorted_unique text_le).
  - apply StronglySorted_merge_sort; apply _.
  - apply StronglySorted_merge_sort; apply _.
  - rewrite !merge_sort_Permutation. exact P.
Qed.

End OrderFacts.

(** X15: the taxa are written in ascending order of their characters,
    each once, and all of them; and the order is that of the set alone:
    any listing of the set sorts to the same lines. *)
Theorem sorted_taxa_listing (taxa : gset text) :
  StronglySorted text_le (sorted_taxa taxa) /\
  NoDup (sorted_taxa taxa) /\
  (forall t, In t (sorted_taxa taxa) <-> t ∈ taxa) /\
  length (sorted_taxa taxa) = size taxa /\
  (forall l, NoDup l -> (forall t, In t l <-> t ∈ taxa) ->
             merge_sort text_le l = sorted_taxa taxa).
Proof.
  pose proof (OrderFacts.sorted_taxa_perm taxa) as P.
  split; [apply OrderFacts.sorted_taxa_sorted|].
  split; [rewrite P; apply NoDup_elements|].
  split; [|split].
  - intros t. rewrite <- list_elem_of_In, P. apply elem_of_elements.
  - rewrite P. reflexivity.
  - intros l N H. apply OrderFacts.sorted_unique.
    apply NoDup_Permutation; [exact N | apply NoDup_elements|].
    intros t. rewrite list_elem_of_In, H, elem_of_elements. reflexivity.
Qed.

Lemma sorted_taxa_listing_witness :
  merge_sort text_le [str "taxB"; str "Tax"; str "taxA"]
  = sorted_taxa {[ str "taxA"; str "taxB"; str "Tax" ]}.
Proof.
  apply sorted_taxa_listing.
  - repeat constructor; rewrite ?list_elem_of_In; simpl;
      intros F; repeat (destruct F as [F|F]; [discriminate F|]); exact F.
  - intros t. rewrite !elem_of_union, !elem_of_singleton. simpl.
    intuition congruence.
Defined.

(* ------------------------------------------------------------------ *)
(** ** A run without [strict] and without group table *)

(** X16: with the input directory in place, without [strict] and without
    group table, when the patterns are accepted and give files, the scan
    cannot raise and the run is settled by the taxa and the writes.  With
    no taxon it ends with status 3.  With a taxon it opens the map file:
    if that write fails the run ends with status 1 and leaves what the
    failure left of the map file; otherwise the map file holds one line
    per taxon in ascending order, and the run ends with status 0, after
    writing the list of taxa if it was asked for; if the write of that
    list fails the run ends with status 1, the map file whole on disk. *)
Theorem main_lax_run (csv_reader : list text -> ascii -> list (list text))
    (args : Args) (disk : Disk) (files : list File)
    (Hdir : is_dir disk = true) (Hlax : strict args = false)
    (Hgroups : groups args = None)
    (Hfiles : found_files args disk = Ok files) (Hsome : files <> []) :
  let run := main csv_reader args disk in
  let taxa : gset text := ⋃ (labels_of <$> files) in
  let map_lines := map (map_line ∅ (default_group args)) (sorted_taxa taxa) in
  let taxa_lines := map (fun t => t ++ [LF]) (sorted_taxa taxa) in
  (taxa = ∅ -> status run = 3%N /\ written run = []) /\
  (taxa <> ∅ ->
   match write disk (out_map args) map_lines with
   | WriteFailed remains =>
       status run = 1%N /\ written run = kept (out_map args) remains
   | Written =>
       match out_taxa args with
       | None =>
           status run = 0%N /\ written run = [(out_map args, map_lines)]
       | Some p =>
           match write disk p taxa_lines with
           | WriteFailed remains =>
               status run = 1%N /\
               written run = (out_map args, map_lines) :: kept p remains
           | Written =>
               status run = 0%N /\
               written run = [(out_map args, map_lines); (p, taxa_lines)]
           end
       end
   end).
Proof.
  intros run taxa map_lines taxa_lines.
  unfold run, main, map_lines, taxa_lines, taxa.
  rewrite (MainFacts.input_dir_true disk Hdir), Hfiles, Hlax, Hgroups.
  destruct files as [|f fs]; [contradiction|].
  pose proof (GatherFacts.gather_loop_lax (f :: fs) (verbose args) ∅) as L.
  unfold gather_taxa.
  destruct (gather_loop (f :: fs) false (verbose args) ∅) as [log1 r].
  cbn [snd] in L. subst r. rewrite (left_id_L ∅ (∪)).
  destruct (decide (⋃ (labels_of <$> f :: fs) = (∅ : gset text))) as [E|E].
  - split; [intros _; split; reflexivity | intros N; contradiction].
  - split; [intros N; contradiction | intros _].
    cbv zeta.
    destruct (write disk (out_map args) _); [|split; reflexivity].
    destruct (out_taxa args) as [p|]; [|split; reflexivity].
    destruct (write disk p _); split; reflexivity.
Qed.

Lemma main_lax_run_witness :
  status (main plain_reader lax_args lax_disk) = 0%N /\
  written (main plain_reader lax_args lax_disk)
  = [(str "astral.map",
      [str "taxA" ++ [TAB] ++ str "taxA" ++ [LF];
       str "taxB" ++ [TAB] ++ str "taxB" ++ [LF]]);
     (str "taxa.txt", [str "taxA" ++ [LF]; str "taxB" ++ [LF]])].
Proof.
  pose proof (main_lax_run plain_reader lax_args lax_disk [sample_fasta]
                eq_refl eq_refl eq_refl eq_refl) as H.
  cbv zeta in H. destruct H as [_ H]; [discriminate|].
  assert (N : ⋃ (labels_of <$> [sample_fasta]) <> (∅ : gset text)).
  { intros E. apply (f_equal elements) in E. vm_compute in E. discriminate E. }
  specialize (H N). cbn [write lax_disk out_taxa lax_args] in H.
  destruct H as [H1 H2].
  split; [exact H1|]. rewrite H2. vm_compute. reflexivity.
Defined.

(* ------------------------------------------------------------------ *)
(** ** More on the group table *)

Module TableFacts.

(** What a row enters is trimmed: a taxon that is not empty, a group
    without surrounding whitespace. *)
Lemma row_entry_shape (ti gi : nat) (r : list text) (t g : text) :
  row_entry ti gi r = Some (t, g) -> trimmed t /\ Str.strip g = g.
Proof.
  unfold row_entry. destruct (length r <=? Nat.max ti gi); [discriminate|].
  destruct (Str.strip (nth ti r [])) as [|c s] eqn:E; [discriminate|].
  intros [= <- <-]. repeat split.
  - rewrite <- E. apply StripFacts.strip_idem.
  - discriminate.
  - apply StripFacts.strip_idem.
Qed.

(** Every entry of the table was entered by a row, or was there before. *)
Lemma groups_loop_entries (ti gi : nat) (rows : list (list text)) :
  forall (m : gmap text text) (k v : text),
    groups_loop ti gi rows m !! k = Some v ->
    m !! k = Some v \/ exists r, In r rows /\ row_entry ti gi r = Some (k, v).
Proof.
  induction rows as [|r rows IH]; intros m k v; [left; assumption|].
  rewrite GroupFacts.groups_loop_cons. intros H.
  apply IH in H as [H | (r' & Hr & H)].
  - destruct (row_entry ti gi r) as [[t g]|] eqn:E; [|left; exact H].
    destruct (decide (t = k)) as [->|N].
    + rewrite lookup_insert_eq in H. injection H as ->.
      right. exists r. split; [left; reflexivity | exact E].
    + rewrite lookup_insert_ne in H by exact N. left. exact H.
  - right. exists r'. split; [right; exact Hr | exact H].
Qed.

Lemma load_groups_rows_entries (rows : list (list text)) (k v : text) :
  load_groups_rows rows !! k = Some v ->
  exists ti gi r, In r rows /\ row_entry ti gi r = Some (k, v).
Proof.
  unfold load_groups_rows. destruct rows as [|row0 more]; [discriminate|].
  destruct (table_layout row0) as [[ti gi] start]. intros H.
  apply groups_loop_entries in H as [H | (r & Hr & H)]; [discriminate|].
  exists ti, gi, r. split; [|exact H]. eapply StrFacts.skipn_In, Hr.
Qed.

Lemma list_index_Some (x : text) (l : list text) (i : nat) :
  list_index x l = Some i -> i < length l /\ nth i l [] = x.
Proof.
  revert i. induction l as [|y l IH]; simpl; intros i; [discriminate|].
  destruct (text_eqb y x) eqn:E.
  - intros [= <-]. split; [lia|]. apply TaxlabelsFacts.text_eqb_eq, E.
  - destruct (list_index x l) as [j|]; [|discriminate].
    intros [= <-]. destruct (IH j eq_refl). split; [lia | assumption].
Qed.

End TableFacts.

(** X17: whatever the reader returns, every key of the table loaded is a
    taxon without surrounding whitespace and not empty, and every value
    is without surrounding whitespace. *)
Theorem load_groups_entries_trimmed
    (csv_reader : list text -> ascii -> list (list text))
    (f : File) (mapping : gmap text text) (k v : text)
    (Hload : load_groups_csv csv_reader f = Ok mapping)
    (Hentry : mapping !! k = Some v) :
  trimmed k /\ Str.strip v = v.
Proof.
  unfold load_groups_csv in Hload. destruct (read_text f); [|discriminate].
  injection Hload as <-.
  apply TableFacts.load_groups_rows_entries in Hentry as (ti & gi & r & _ & H).
  eapply TableFacts.row_entry_shape, H.
Qed.

Lemma load_groups_entries_trimmed_witness :
  trimmed (str "taxA") /\ Str.strip (str "g3") = str "g3".
Proof.
  apply (load_groups_entries_trimmed plain_reader sample_groups
           {[ str "taxA" := str "g3"; str "taxB" := str "g2" ]}).
  - vm_compute. reflexivity.
  - vm_compute. reflexivity.
Defined.

(** X18: a taxon that no data row of the table names is not a key of the
    table loaded, so the resolver answers by the default policy. *)
Theorem load_groups_absent_taxon
    (csv_reader : list text -> ascii -> list (list text))
    (f : File) (sample : text) (row0 : list text) (more : list (list text))
    (tax_idx grp_idx start_idx : nat) (t : text)
    (Hread : read_text f = Ok sample)
    (Hrows : csv_reader (Str.splitlines sample) (detect_delimiter sample)
             = row0 :: more)
    (Hlayout : table_layout row0 = (tax_idx, grp_idx, start_idx))
    (Hnone : Forall (fun r => forall g, row_entry tax_idx grp_idx r <> Some (t, g))
                    (skipn start_idx (row0 :: more))) :
  exists mapping,
    load_groups_csv csv_reader f = Ok mapping /\
    mapping !! t = None /\
    pick_group mapping (str "species") t = t /\
    pick_group mapping (str "NA") t = str "NA" /\
    pick_group mapping (str "none") t = [].
Proof.
  unfold load_groups_csv. rewrite Hread. cbv zeta. rewrite Hrows.
  eexists. split; [reflexivity|].
  assert (N : load_groups_rows (row0 :: more) !! t = None).
  { unfold load_groups_rows. rewrite Hlayout.
    rewrite (GroupFacts.groups_loop_other _ _ _ _ Hnone). apply lookup_empty. }
  split; [exact N|]. unfold pick_group. rewrite N. repeat split.
Qed.

Lemma load_groups_absent_taxon_witness :
  exists mapping,
    load_groups_csv plain_reader sample_groups = Ok mapping /\
    mapping !! str "short" = None /\
    pick_group mapping (str "species") (str "short") = str "short" /\
    pick_group mapping (str "NA") (str "short") = str "NA" /\
    pick_group mapping (str "none") (str "short") = [].
Proof.
  apply (load_groups_absent_taxon plain_reader sample_groups
           (str "Taxon,Group" ++ [LF] ++ str "taxA, g1" ++ [LF]
              ++ str "taxB,g2" ++ [LF] ++ str "taxA ,g3" ++ [LF]
              ++ str "short" ++ [LF])
           [str "Taxon"; str "Group"]
           [[str "taxA"; str " g1"]; [str "taxB"; str "g2"];
            [str "taxA "; str "g3"]; [str "short"]]
           0 1 1).
  - reflexivity.
  - vm_compute. reflexivity.
  - vm_compute. reflexivity.
  - repeat constructor; intros g E; vm_compute in E; discriminate E.
Defined.

(** X19: a header is taken for one only when it names both columns, in
    any case and with any surrounding whitespace; the columns found then
    lie inside the header row, differ, and the header row is not read as
    data.  Otherwise the first row is data, with the taxon in the first
    column and the group in the second. *)
Theorem table_layout_cases (row0 : list text) :
  (exists tax_idx grp_idx,
     table_layout row0 = (tax_idx, grp_idx, 1) /\
     tax_idx < length row0 /\ grp_idx < length row0 /\ tax_idx <> grp_idx /\
     Str.lower (Str.strip (nth tax_idx row0 [])) = str "taxon" /\
     Str.lower (Str.strip (nth grp_idx row0 [])) = str "group") \/
  table_layout row0 = (0, 1, 0).
Proof.
  unfold table_layout.
  set (header := map (fun c => Str.lower (Str.strip c)) row0).
  assert (Hnth : forall i, nth i header []
                           = Str.lower (Str.strip (nth i row0 []))).
  { intros i. unfold header.
    change (@nil ascii) with ((fun c => Str.lower (Str.strip c)) []) at 1.
    apply map_nth. }
  destruct (list_index (str "taxon") header) as [ti|] eqn:T; [|right; reflexivity].
  destruct (list_index (str "group") header) as [gi|] eqn:G; [|right; reflexivity].
  left. exists ti, gi.
  apply TableFacts.list_index_Some in T as [T1 T2].
  apply TableFacts.list_index_Some in G as [G1 G2].
  unfold header in T1, G1. rewrite length_map in T1, G1.
  rewrite Hnth in T2, G2.
  repeat split; try assumption.
  intros ->. rewrite T2 in G2. discriminate G2.
Qed.

(* ------------------------------------------------------------------ *)
(** ** FASTA texts put end to end *)

Module ConcatFacts.
Import StrFacts.

(** A line feed ends what the translation of line ends has to pair. *)
Lemma universal_newlines_LF (n : nat) :
  forall a, length a <= n ->
    exists u, forall b,
      universal_newlines (a ++ LF :: b) = u ++ LF :: universal_newlines b.
Proof.
  induction n as [|n IH]; intros a L.
  - destruct a; [|simpl in L; lia]. exists []. intros b. reflexivity.
  - destruct a as [|c r]; [exists []; intros b; reflexivity|].
    simpl in L. simpl. destruct (Char.eqb c CR).
    + destruct r as [|d r'].
      * exists []. intros b. reflexivity.
      * simpl in L. simpl. destruct (Char.eqb d LF).
        -- destruct (IH r') as [u Hu]; [lia|]. exists (LF :: u).
           intros b. rewrite Hu. reflexivity.
        -- destruct (IH (d :: r')) as [u Hu]; [simpl; lia|]. exists (LF :: u).
           intros b. simpl in Hu. rewrite Hu. reflexivity.
    + destruct (IH r) as [u Hu]; [lia|]. exists (c :: u).
      intros b. rewrite Hu. reflexivity.
Qed.

Lemma readlines_go_LF (u y : text) :
  forall cur, readlines_go cur (u ++ LF :: y)
              = readlines_go cur (u ++ [LF]) ++ readlines_go [] y.
Proof.
  induction u as [|c u IH]; intros cur.
  - simpl. change (Char.eqb LF LF) with true. cbv iota. reflexivity.
  - simpl. destruct (Char.eqb c LF).
    + rewrite IH. reflexivity.
    + apply IH.
Qed.

(** The lines of two texts, the first one closed by a line feed. *)
Lemma readlines_concat (a b : text) :
  readlines (universal_newlines (a ++ LF :: b))
  = readlines (universal_newlines (a ++ [LF]))
    ++ readlines (universal_newlines b).
Proof.
  destruct (universal_newlines_LF (length a) a (le_n _)) as [u Hu].
  rewrite (Hu b), (Hu []). unfold readlines. simpl universal_newlines.
  apply readlines_go_LF.
Qed.

(** A text on one line is its only line. *)
Lemma readlines_one_line (l : text) :
  one_line l ->
  readlines (universal_newlines l) = match l with [] => [] | _ => [l] end.
Proof.
  intros O.
  assert (C : Forall (fun c => Char.eqb c CR = false) l)
    by (revert O; apply List.Forall_impl; tauto).
  assert (L : Forall (fun c => Char.eqb c LF = false) l).
  { revert O. apply List.Forall_impl. intros c [_ B].
    apply eqb_neq. intros ->. discriminate B. }
  rewrite <- (app_nil_r l) at 1.
  rewrite (DetectFacts.universal_newlines_prefix _ _ C). simpl.
  rewrite app_nil_r. unfold readlines.
  rewrite <- (app_nil_r l) at 1.
  rewrite (DetectFacts.readlines_go_prefix _ _ L). rewrite app_nil_r.
  simpl. destruct l as [|c l]; [reflexivity|].
  destruct (rev (c :: l)) eqn:E.
  - apply (f_equal (@rev ascii)) in E. rewrite rev_involutive in E.
    discriminate E.
  - rewrite <- E, rev_involutive. reflexivity.
Qed.

End ConcatFacts.

(** X20: the labels of two FASTA texts put end to end, the first one
    closed by a line feed, are the union of the labels of each; and a last
    line that does not begin with the marker, be it sequence data or an
    indented header, adds nothing. *)
Theorem parse_fasta_concat (a b : text) :
  (exists A B,
     parse_fasta_text (a ++ [LF]) = Ok A /\ parse_fasta_text b = Ok B /\
     parse_fasta_text (a ++ LF :: b) = Ok (A ∪ B)) /\
  (one_line b -> Str.startswith (str ">") b = false ->
   parse_fasta_text (a ++ LF :: b) = parse_fasta_text (a ++ [LF])).
Proof.
  assert (E : parse_fasta_text (a ++ LF :: b)
              = Ok (FastaSpec.fasta_labels (a ++ [LF])
                      ∪ FastaSpec.fasta_labels b)).
  { rewrite FastaFacts.parse_fasta_text_spec. f_equal.
    unfold FastaSpec.fasta_labels.
    rewrite ConcatFacts.readlines_concat, omap_app.
    apply list_to_set_app_L. }
  split.
  - exists (FastaSpec.fasta_labels (a ++ [LF])), (FastaSpec.fasta_labels b).
    rewrite !FastaFacts.parse_fasta_text_spec. repeat split.
    rewrite <- FastaFacts.parse_fasta_text_spec. exact E.
  - intros O S. rewrite E, FastaFacts.parse_fasta_text_spec. f_equal.
    assert (N : FastaSpec.fasta_labels b = ∅).
    { unfold FastaSpec.fasta_labels.
      rewrite (ConcatFacts.readlines_one_line _ O).
      destruct b as [|c b]; [reflexivity|]. simpl.
      simpl in S. rewrite andb_true_r, StrFacts.eqb_sym in S. rewrite S.
      reflexivity. }
    rewrite N. apply (right_id_L ∅ (∪)).
Qed.

Lemma parse_fasta_concat_witness :
  parse_fasta_text (str ">taxA one" ++ LF :: str " >taxB")
  = parse_fasta_text (str ">taxA one" ++ [LF]).
Proof.
  apply (proj2 (parse_fasta_concat (str ">taxA one") (str " >taxB"))).
  - repeat constructor.
  - reflexivity.
Defined.

(* ------------------------------------------------------------------ *)
(** ** Lines of the map file, empty names, empty patterns *)

Module OutputFacts.
Import StrFacts.

(** Two texts cut at their first tab. *)
Lemma split_at_tab (a b x y : text) :
  ~ In TAB a -> ~ In TAB b -> a ++ TAB :: x = b ++ TAB :: y -> a = b /\ x = y.
Proof.
  revert b. induction a as [|c a IH]; intros [|d b] Ha Hb E; simpl in *.
  - injection E as ->. split; reflexivity.
  - injection E as E _. exfalso. apply Hb. left. symmetry. exact E.
  - injection E as E _. exfalso. apply Ha. left. exact E.
  - injection E as -> E. destruct (IH b) as [-> ->]; tauto.
Qed.

(** The pieces between separators hold what the text holds but the
    separator. *)
Lemma split_on_go_pieces (P : ascii -> Prop) (sep : ascii) (s : text) :
  Forall (fun c => c = sep \/ P c) s ->
  forall cur piece,
    Forall P cur -> In piece (split_on_go sep cur s) -> Forall P piece.
Proof.
  induction 1 as [|c s Hc _ IH]; intros cur piece Hcur; simpl.
  - intros [<-|[]]. apply List.Forall_rev, Hcur.
  - destruct (Char.eqb c sep) eqn:E.
    + intros [<-|H]; [apply List.Forall_rev, Hcur|].
      apply (IH [] piece); [constructor | exact H].
    + apply IH. constructor; [|exact Hcur].
      destruct Hc as [->|Hc]; [|exact Hc].
      rewrite eqb_refl in E. discriminate E.
Qed.

Lemma filter_all_empty (l : list text) :
  Forall (fun p => p = []) l -> filter (fun p => p <> []) l = [].
Proof.
  induction 1 as [|p l -> _ IH]; [reflexivity|].
  rewrite filter_cons. destruct (decide ([] <> @nil ascii)) as [N|_];
    [contradiction | exact IH].
Qed.

End OutputFacts.

(** X21: a line of the map file tells its taxon and its group when the
    taxa hold no tab, as all labels of the FASTA extractor do: two lines
    that are equal come from the same taxon with the same group. *)
Theorem map_line_unambiguous (m1 m2 : gmap text text) (d1 d2 t1 t2 : text)
    (Htab1 : Str.contains TAB t1 = false) (Htab2 : Str.contains TAB t2 = false)
    (Hline : map_line m1 d1 t1 = map_line m2 d2 t2) :
  t1 = t2 /\ pick_group m1 d1 t1 = pick_group m2 d2 t2.
Proof.
  unfold map_line in Hline. simpl in Hline.
  apply OutputFacts.split_at_tab in Hline as [-> E];
    [| apply ScanFacts.contains_false; assumption
     | apply ScanFacts.contains_false; assumption].
  split; [reflexivity|]. apply app_inv_tail in E. exact E.
Qed.

Lemma map_line_unambiguous_witness :
  str "taxA" = str "taxA" /\
  pick_group ∅ (str "species") (str "taxA")
  = pick_group {[ str "taxA" := str "taxA" ]} (str "NA") (str "taxA").
Proof.
  apply map_line_unambiguous; reflexivity.
Defined.

(** X22: the priority of TAXLABELS holds even when its names are all
    empty or blank, as with empty quotes: the extractor then returns no
    taxon at all, whatever the MATRIX block holds. *)
Theorem blank_taxlabels_hide_matrix (raw : text)
    (matrix_step : text -> list text)
    (Hsome : parse_taxlabels_block (strip_nexus_comments raw) <> [])
    (Hblank : Forall blank (parse_taxlabels_block (strip_nexus_comments raw))) :
  parse_nexus_with matrix_step raw = ∅.
Proof.
  destruct (parse_nexus_with_cases raw matrix_step) as [C _].
  rewrite (C Hsome). apply set_eq. intros l. split.
  - rewrite NexusFacts.elem_of_cleaned. intros (l0 & H0 & N & _).
    apply elem_of_list_to_set, list_elem_of_In in H0.
    rewrite List.Forall_forall in Hblank.
    exfalso. apply N. apply MatrixFacts.strip_blank, Hblank, H0.
  - intros F. exfalso. exact (not_elem_of_empty (C := gset text) l F).
Qed.

Lemma blank_taxlabels_hide_matrix_witness :
  parse_nexus_text (str "taxlabels '' ' '; matrix" ++ LF :: str "t1 ACGT" ++ LF :: str ";")
  = ∅.
Proof.
  apply blank_taxlabels_hide_matrix.
  - intros E. vm_compute in E. discriminate E.
  - vm_compute. repeat constructor.
Defined.

(** X23: a pattern list made of commas and whitespace only names no
    pattern: no file is looked for, and the program ends with status 2
    and nothing written. *)
Theorem empty_patterns_no_files
    (csv_reader : list text -> ascii -> list (list text))
    (args : Args) (disk : Disk)
    (Hdir : is_dir disk = true)
    (Hpat : forallb (fun c => Char.eqb c "," || Char.isspace c) (pattern args)
            = true) :
  found_files args disk = Ok [] /\
  main csv_reader args disk = mkRun 2 [NoFilesFound] [].
Proof.
  assert (F : found_files args disk = Ok []).
  { unfold found_files. rewrite OutputFacts.filter_all_empty; [reflexivity|].
    apply List.Forall_forall. intros p Hp.
    apply in_map_iff in Hp as (piece & <- & Hpiece).
    apply MatrixFacts.strip_blank.
    unfold split_on in Hpiece.
    apply (OutputFacts.split_on_go_pieces
             (fun c => Char.isspace c = true) "," (pattern args)) with (cur := []);
      [| constructor | exact Hpiece].
    apply List.Forall_forall. intros c Hc.
    rewrite forallb_forall in Hpat. apply Hpat in Hc.
    apply orb_true_iff in Hc as [Hc|Hc]; [left; apply StrFacts.eqb_eq, Hc | right; exact Hc]. }
  split; [exact F|].
  unfold main. rewrite (MainFacts.input_dir_true disk Hdir), F. reflexivity.
Qed.

Lemma empty_patterns_no_files_witness :
  main plain_reader
       (mkArgs (str " , ,") None (str "species") (str "astral.map") None false false)
       lax_disk
  = mkRun 2 [NoFilesFound] [].
Proof.
  apply empty_patterns_no_files; reflexivity.
Defined.

(* ------------------------------------------------------------------ *)
(** ** Patterns the search refuses *)

Module SearchFacts.

Lemma rglob_all_raise (disk : Disk) (patterns : list text) (pat : text) (e : exn) :
  In pat patterns -> rglob disk pat = Raise e ->
  exists e', rglob_all disk patterns = Raise e'.
Proof.
  intros Hin Hpat. induction patterns as [|p ps IH]; [destruct Hin|].
  simpl. destruct Hin as [->|Hin].
  - rewrite Hpat. exists e. reflexivity.
  - destruct (rglob disk p) as [fs|e1]; [|exists e1; reflexivity].
    destruct (IH Hin) as [e' ->]. exists e'. reflexivity.
Qed.

End SearchFacts.

(** X24: when the search refuses one of the patterns, the run ends on
    that exception with status 1, whatever the other patterns find: no
    file is scanned, no diagnostic printed and nothing written. *)
Theorem refused_pattern_ends_run
    (csv_reader : list text -> ascii -> list (list text))
    (args : Args) (disk : Disk) (pat : text) (e : exn)
    (Hdir : is_dir disk = true)
    (Hin : In pat (filter (fun p => p <> [])
                          (map Str.strip (split_on "," (pattern args)))))
    (Hpat : rglob disk pat = Raise e) :
  (exists e', found_files args disk = Raise e') /\
  main csv_reader args disk = mkRun 1 [] [].
Proof.
  destruct (SearchFacts.rglob_all_raise disk _ pat e Hin Hpat) as [e' F].
  split; [exists e'; exact F|].
  unfold main. rewrite (MainFacts.input_dir_true disk Hdir).
  unfold found_files. rewrite F. reflexivity.
Qed.

Lemma refused_pattern_ends_run_witness :
  main plain_reader absolute_args relative_only_disk = mkRun 1 [] [].
Proof.
  apply (refused_pattern_ends_run plain_reader absolute_args relative_only_disk
           (str "/x") NotImplementedError).
  - reflexivity.
  - vm_compute. right. left. reflexivity.
  - reflexivity.
Defined.
